(** * pgllens: the OAuth authorization flow and the MCP session registry

    A shallow embedding of the HTTP entry point of the PostgreSQL MCP server
    (the file that imports [express], [randomUUID] and [timingSafeEqual] and
    exports [startServer]): the rate limiter, the timing-safe password
    comparison, the bearer middleware, the [/oauth/*] handlers, the
    [POST /mcp] handler and the shutdown loop; and of what the tools of
    the server and [startServer] run through: the read-only query of the
    database client, the metadata cache of the schema loader with its
    background refresh, the reading of the exposed schemas, and the text
    helpers of the tools.

    Conventions of the embedding.
    - A JavaScript string is represented by its UTF-8 encoding (what
      [Buffer.from] yields), as a Rocq [string]; [undefined] is [None].
    - [Date.now()] is read once per synchronous handler run and passed in as
      [now]; [randomUUID()] is passed in as 128 bits and rendered by
      [randomUUID].
    - The four module-level tables are the fields of [Server]. The rate-limit
      table is a JavaScript [Map]; the other three are object literals, whose
      reads go through [Object.prototype] (see [getProperty]).
    - The MCP SDK transport is outside the file; what it does to a request is
      an input of the handlers ([TransportReply], [InitReply], [CloseReply]). *)

From Stdlib Require Import ZArith String Ascii List Lia Bool.
From Stdlib.Strings Require Import Byte.
From stdpp Require Import gmap strings list fin_maps pretty.

Open Scope string_scope.
Open Scope Z_scope.

(** ** JavaScript values used by the file *)

Module Js.

(** [ToString] on a value that is a string or [undefined]: template
    literals and computed property keys. *)
Definition ToString (v : option string) : string :=
  match v with
  | Some s => s
  | None => "undefined"
  end.

(** [ToBoolean] on a value that is a string or [undefined]. *)
Definition truthy (v : option string) : bool :=
  match v with
  | Some s => negb (s =? "")%string
  | None => false
  end.

(** [a || b] on such values. *)
Definition or_else (a b : option string) : option string :=
  if truthy a then a else b.

(** The property names every object literal inherits from
    [Object.prototype]; each of them reads as a function or an object,
    hence as a truthy value. *)
Definition ObjectPrototype : list string :=
  [ "constructor"; "__proto__"; "hasOwnProperty"; "isPrototypeOf";
    "propertyIsEnumerable"; "toLocaleString"; "toString"; "valueOf";
    "__defineGetter__"; "__defineSetter__"; "__lookupGetter__";
    "__lookupSetter__" ].

Definition inherited (k : string) : bool :=
  existsb (String.eqb k) ObjectPrototype.

(** What [obj[k]] evaluates to, for an object literal whose own properties
    are the entries of a finite map. *)
Inductive Property (V : Type) : Type :=
| Own (v : V)
| Inherited (name : string)
| Undefined.
Arguments Own {V} v.
Arguments Inherited {V} name.
Arguments Undefined {V}.

Definition getProperty {V : Type} (obj : gmap string V) (k : string) : Property V :=
  match obj !! k with
  | Some v => Own v
  | None => if inherited k then Inherited k else Undefined
  end.

(** [!obj[k]] *)
Definition missing {V : Type} (obj : gmap string V) (k : string) : bool :=
  match getProperty obj k with
  | Undefined => true
  | _ => false
  end.

(** [obj[k] = v]. Every assignment of the file uses a key that came from
    [randomUUID] or that was just read as [Undefined], so the inherited
    [__proto__] accessor is never the target. *)
Definition setProperty {V : Type} (obj : gmap string V) (k : string) (v : V) : gmap string V :=
  <[k := v]> obj.

(** [delete obj[k]]: removes an own property, and nothing else. *)
Definition deleteProperty {V : Type} (obj : gmap string V) (k : string) : gmap string V :=
  delete k obj.

(** The keys [for (const k in obj)] visits: the own enumerable properties
    ([Object.prototype] has no enumerable one). JavaScript visits them in
    insertion order; the map lists them in its own order. *)
Definition forIn {V : Type} (obj : gmap string V) : list string :=
  (map_to_list obj).*1.

End Js.

(** ** [randomUUID] *)

Definition hexDigit (d : N) : ascii :=
  nth (N.to_nat d) (list_ascii_of_string "0123456789abcdef") "0"%char.

(** The [digits] low hexadecimal digits of [x], most significant first, put
    in front of [tail]. *)
Fixpoint hex (digits : nat) (x : N) (tail : string) : string :=
  match digits with
  | O => tail
  | S n => hex n (x / 16)%N (String (hexDigit (x mod 16)%N) tail)
  end.

(** The canonical 8-4-4-4-12 text of 128 bits. *)
Definition randomUUID (bits : N) : string :=
  hex 8 (bits / 16 ^ 24)%N (String "-"
    (hex 4 (bits / 16 ^ 20)%N (String "-"
      (hex 4 (bits / 16 ^ 16)%N (String "-"
        (hex 4 (bits / 16 ^ 12)%N (String "-"
          (hex 12 bits ""))))))))%string.

(** ** Tables and configuration *)

Record RateLimitEntry : Type := mkRateLimitEntry {
  attempts : Z;
  lockoutUntil : Z
}.

Module OAuthClient.
Record t : Type := mk {
  client_id : string;
  client_secret : option string;
  redirect_uris : list string;
  client_name : option string;
  created_at : Z
}.
End OAuthClient.

Module AuthCode.
Record t : Type := mk {
  client_id : option string;
  redirect_uri : option string;
  code_challenge : option string;
  code_challenge_method : option string;
  expires : Z
}.
End AuthCode.

(** A [StreamableHTTPServerTransport], as far as the file looks into it. *)
Record Transport : Type := mkTransport {
  sessionId : option string
}.

(** The constants read from the environment and the command line. *)
Record Config : Type := mkConfig {
  useOAuth : bool;
  OAUTH_TOKEN_EXPIRES_IN : Z;
  RATE_LIMIT_MAX_ATTEMPTS : Z;
  RATE_LIMIT_WINDOW_MS : Z;
  authPassword : option string
}.

Definition defaultConfig : Config :=
  {| useOAuth := true;
     OAUTH_TOKEN_EXPIRES_IN := 604800;
     RATE_LIMIT_MAX_ATTEMPTS := 5;
     RATE_LIMIT_WINDOW_MS := 900000;
     authPassword := None |}.

Record Server : Type := mkServer {
  rateLimitState : gmap string RateLimitEntry;
  transports : gmap string Transport;
  oauthClients : gmap string OAuthClient.t;
  authCodes : gmap string AuthCode.t;
  console : list string
}.

Definition emptyServer : Server :=
  {| rateLimitState := ∅; transports := ∅; oauthClients := ∅; authCodes := ∅;
     console := [] |}.

Definition with_rateLimitState (m : gmap string RateLimitEntry) (s : Server) : Server :=
  {| rateLimitState := m; transports := transports s;
     oauthClients := oauthClients s; authCodes := authCodes s;
     console := console s |}.

Definition with_transports (m : gmap string Transport) (s : Server) : Server :=
  {| rateLimitState := rateLimitState s; transports := m;
     oauthClients := oauthClients s; authCodes := authCodes s;
     console := console s |}.

Definition with_oauthClients (m : gmap string OAuthClient.t) (s : Server) : Server :=
  {| rateLimitState := rateLimitState s; transports := transports s;
     oauthClients := m; authCodes := authCodes s;
     console := console s |}.

Definition with_authCodes (m : gmap string AuthCode.t) (s : Server) : Server :=
  {| rateLimitState := rateLimitState s; transports := transports s;
     oauthClients := oauthClients s; authCodes := m;
     console := console s |}.

(** [console.log], [console.warn] and [console.error]: one line appended. *)
Definition console_log (line : string) (s : Server) : Server :=
  {| rateLimitState := rateLimitState s; transports := transports s;
     oauthClients := oauthClients s; authCodes := authCodes s;
     console := console s ++ [line] |}.

(** ** Handlers as state transformers *)

Definition M (A : Type) : Type := Server -> A * Server.

Definition ret {A : Type} (a : A) : M A := fun s => (a, s).

Definition bind {A B : Type} (c : M A) (k : A -> M B) : M B :=
  fun s => let (a, s') := c s in k a s'.

Definition gets {A : Type} (f : Server -> A) : M A := fun s => (f s, s).

Definition modify (f : Server -> Server) : M unit := fun s => (tt, f s).

Declare Scope handler_scope.
Delimit Scope handler_scope with handler.
Notation "'let*' x ':=' c 'in' k" := (bind c (fun x => k))
  (at level 10, x name, c at level 100, k at level 200) : handler_scope.
Notation "c1 '>>' c2" := (bind c1 (fun _ => c2))
  (at level 100, c2 at level 200, right associativity) : handler_scope.

(** ** Rate limiting *)

Section RateLimiter.

Variable cfg : Config.

(** [Math.ceil((lockoutUntil - now) / 1000)] for a positive difference. *)
Definition remainingSeconds (until now : Z) : Z := (until - now + 999) / 1000.

(** [checkRateLimit(ip)]: the error message if [ip] is locked out. *)
Definition checkRateLimit (ip : string) (now : Z) : M (option string) := fun s =>
  match rateLimitState s !! ip with
  | None => (None, s)
  | Some state =>
    if lockoutUntil state >? now then
      (Some ("Too many failed attempts. Try again in "
               +:+ pretty (remainingSeconds (lockoutUntil state) now)
               +:+ " seconds."), s)
    else if (lockoutUntil state <=? now) && (attempts state >=? RATE_LIMIT_MAX_ATTEMPTS cfg) then
      (None, with_rateLimitState (delete ip (rateLimitState s)) s)
    else (None, s)
  end.

(** [recordFailedAttempt(ip)]: [true] if [ip] is now locked out. *)
Definition recordFailedAttempt (ip : string) (now : Z) : M bool := fun s =>
  let state := default {| attempts := 0; lockoutUntil := 0 |} (rateLimitState s !! ip) in
  let attempts' := attempts state + 1 in
  let locked := attempts' >=? RATE_LIMIT_MAX_ATTEMPTS cfg in
  let state' :=
    {| attempts := attempts';
       lockoutUntil := if locked then now + RATE_LIMIT_WINDOW_MS cfg
                       else lockoutUntil state |} in
  let s1 := if locked then console_log ("Rate limit triggered for IP: " +:+ ip) s else s in
  (locked, with_rateLimitState (<[ip := state']> (rateLimitState s1)) s1).

(** [clearRateLimit(ip)] *)
Definition clearRateLimit (ip : string) : M unit :=
  modify (fun s => with_rateLimitState (delete ip (rateLimitState s)) s).

End RateLimiter.

(** ** Timing-safe password comparison *)

(** [Buffer.from(s)]: the bytes of the string. *)
Definition Buffer_from (s : string) : list byte := list_byte_of_string s.

(** [Buffer.alloc(n)]: [n] zero bytes. *)
Definition Buffer_alloc (n : nat) : list byte := repeat x00 n.

(** [source.copy(target)]: the start of [target] overwritten with as much of
    [source] as fits. *)
Definition Buffer_copy (source target : list byte) : list byte :=
  firstn (length target) source ++ skipn (length source) target.

Fixpoint bytes_eqb (a b : list byte) : bool :=
  match a, b with
  | [], [] => true
  | x :: a', y :: b' => Byte.eqb x y && bytes_eqb a' b'
  | _, _ => false
  end.

(** [crypto.timingSafeEqual(a, b)]: raises a [RangeError] ([None]) when the
    two buffers differ in length, compares them otherwise. *)
Definition timingSafeEqual (a b : list byte) : option bool :=
  if (length a =? length b)%nat then Some (bytes_eqb a b) else None.

(** One call of [timingSafeEqual], with the two buffers it was given. *)
Record Comparison : Type := mkComparison {
  compared : list byte;
  against : list byte
}.

(** [safeComparePasswords(provided, expected)], together with the calls of
    [timingSafeEqual] it made. The result is [None] if a call raised. *)
Definition safeComparePasswords (provided expected : option string)
  : list Comparison * option bool :=
  if negb (Js.truthy provided) || negb (Js.truthy expected) then ([], Some false)
  else
    let providedBuf := Buffer_from (Js.ToString provided) in
    let expectedBuf := Buffer_from (Js.ToString expected) in
    if negb (length providedBuf =? length expectedBuf)%nat then
      let paddedProvided := Buffer_copy providedBuf (Buffer_alloc (length expectedBuf)) in
      ([mkComparison paddedProvided expectedBuf],
       match timingSafeEqual paddedProvided expectedBuf with
       | Some _ => Some false
       | None => None
       end)
    else
      ([mkComparison providedBuf expectedBuf], timingSafeEqual providedBuf expectedBuf).

(** ** Responses *)

#[warnings="-register-all"]
Inductive Json : Type :=
| JString (s : string)
| JNumber (n : Z)
| JNull
| JArray (items : list Json)
| JObject (fields : list (string * Json)).

(** The login page, by the values [getLoginPage] splices into its template:
    the error banner (absent when the error is falsy) and the five hidden
    fields ([value || '']). *)
Record LoginPage : Type := mkLoginPage {
  page_error : option string;
  page_redirect_uri : string;
  page_state : string;
  page_client_id : string;
  page_code_challenge : string;
  page_code_challenge_method : string
}.

Definition getLoginPage (error redirect_uri state client_id code_challenge
                         code_challenge_method : option string) : LoginPage :=
  let field v := Js.ToString (Js.or_else v (Some "")) in
  {| page_error := if Js.truthy error then error else None;
     page_redirect_uri := field redirect_uri;
     page_state := field state;
     page_client_id := field client_id;
     page_code_challenge := field code_challenge;
     page_code_challenge_method := field code_challenge_method |}.

Inductive Body : Type :=
| json (value : Json)
| send (page : LoginPage)
| sendText (text : string)
| redirect (location : string).

Record Response : Type := mkResponse {
  status : Z;
  body : Body
}.

Definition errorJson (error error_description : string) : Body :=
  json (JObject [("error", JString error);
                 ("error_description", JString error_description)]).

Definition tokenJson (access_token : string) (expires_in : Z) : Body :=
  json (JObject [("access_token", JString access_token);
                 ("token_type", JString "Bearer");
                 ("expires_in", JNumber expires_in)]).

Definition jsonRpcError (code : Z) (message : string) : Body :=
  json (JObject [("jsonrpc", JString "2.0");
                 ("error", JObject [("code", JNumber code);
                                    ("message", JString message)]);
                 ("id", JNull)]).

(** What Express answers when a handler raises. *)
Definition uncaught : Response := {| status := 500; body := sendText "Internal Server Error" |}.

(** ** Bearer middleware *)

Inductive Middleware : Type :=
| Rejected (response : Response)
| Next (auth_token : string).

(** The function [createAuthMiddleware()] returns, applied to the
    [Authorization] header of a request. [Next] carries the value stored in
    [req.app.locals.auth.token]. *)
Definition createAuthMiddleware (authorization : option string) : Middleware :=
  if negb (Js.truthy authorization)
     || negb (String.prefix "Bearer " (Js.ToString authorization)) then
    Rejected {| status := 401;
                body := errorJson "unauthorized" "Bearer token required" |}
  else
    let authHeader := Js.ToString authorization in
    let token := substring 7 (String.length authHeader - 7) authHeader in
    if negb (Js.truthy (Some token)) then
      Rejected {| status := 401;
                  body := errorJson "invalid_token" "Invalid or expired token" |}
    else Next (substring 0 8 token +:+ "...").

(** ** OAuth endpoints *)

Module AuthorizeRequest.
(** The query of [GET /oauth/authorize], or the form body of the [POST];
    [password] is only read by the [POST]. [ip] and [remoteAddress] are
    [req.ip] and [req.socket.remoteAddress]. *)
Record t : Type := mk {
  redirect_uri : option string;
  state : option string;
  client_id : option string;
  code_challenge : option string;
  code_challenge_method : option string;
  password : option string;
  ip : option string;
  remoteAddress : option string
}.
End AuthorizeRequest.

Module TokenRequest.
Record t : Type := mk {
  code : option string;
  grant_type : option string;
  client_id : option string;
  client_secret : option string
}.
End TokenRequest.

Module RegistrationRequest.
(** [redirect_uris] is [None] when the field is missing or not an array. *)
Record t : Type := mk {
  redirect_uris : option (list string);
  client_name : option string
}.
End RegistrationRequest.

Section OAuth.

Variable cfg : Config.

Local Open Scope handler_scope.

(** [handleClientRegistration]: [POST /register] and [POST /oauth/register]. *)
Definition handleClientRegistration (req : RegistrationRequest.t) (now : Z) (bits : N)
  : M Response :=
  match RegistrationRequest.redirect_uris req with
  | None | Some [] =>
    ret {| status := 400;
           body := errorJson "invalid_client_metadata" "redirect_uris is required" |}
  | Some redirect_uris =>
    let client_id := randomUUID bits in
    let client_name :=
      Js.or_else (RegistrationRequest.client_name req) (Some "Unknown Client") in
    let client :=
      {| OAuthClient.client_id := client_id;
         OAuthClient.client_secret := None;
         OAuthClient.redirect_uris := redirect_uris;
         OAuthClient.client_name := client_name;
         OAuthClient.created_at := now |} in
    modify (fun s => with_oauthClients (Js.setProperty (oauthClients s) client_id client) s) >>
    modify (console_log ("OAuth client registered: " +:+ client_id +:+ " ("
                           +:+ Js.ToString client_name +:+ ")")) >>
    ret {| status := 201;
           body := json (JObject
             [("client_id", JString client_id);
              ("client_id_issued_at", JNumber (now / 1000));
              ("redirect_uris", JArray (map JString redirect_uris));
              ("client_name", JString (Js.ToString client_name));
              ("token_endpoint_auth_method", JString "none")]) |}
  end.

(** The redirect both authorize handlers end with. *)
Definition callback (redirect_uri : option string) (code : string) (state : option string)
  : Response :=
  {| status := 302;
     body := redirect (Js.ToString redirect_uri +:+ "?code=" +:+ code
                         +:+ "&state=" +:+ Js.ToString state) |}.

(** [app.get('/oauth/authorize')]: the login form, or a code at once when no
    password is configured. *)
Definition getAuthorize (req : AuthorizeRequest.t) (now : Z) (bits : N) : M Response :=
  if negb (Js.truthy (authPassword cfg)) then
    let code := randomUUID bits in
    modify (fun s => with_authCodes (Js.setProperty (authCodes s) code
      {| AuthCode.client_id := AuthorizeRequest.client_id req;
         AuthCode.redirect_uri := AuthorizeRequest.redirect_uri req;
         AuthCode.code_challenge := None;
         AuthCode.code_challenge_method := None;
         AuthCode.expires := now + 60000 |}) s) >>
    ret (callback (AuthorizeRequest.redirect_uri req) code (AuthorizeRequest.state req))
  else
    ret {| status := 200;
           body := send (getLoginPage None
                           (AuthorizeRequest.redirect_uri req)
                           (AuthorizeRequest.state req)
                           (AuthorizeRequest.client_id req)
                           (AuthorizeRequest.code_challenge req)
                           (AuthorizeRequest.code_challenge_method req)) |}.

(** [req.ip || req.socket.remoteAddress || 'unknown'] *)
Definition clientIp (req : AuthorizeRequest.t) : string :=
  Js.ToString (Js.or_else (Js.or_else (AuthorizeRequest.ip req)
                                       (AuthorizeRequest.remoteAddress req))
                          (Some "unknown")).

(** [app.post('/oauth/authorize')]: rate limit, password, then the code. *)
Definition postAuthorize (req : AuthorizeRequest.t) (now : Z) (bits : N) : M Response :=
  let page error :=
    send (getLoginPage error
            (AuthorizeRequest.redirect_uri req)
            (AuthorizeRequest.state req)
            (AuthorizeRequest.client_id req)
            (AuthorizeRequest.code_challenge req)
            (AuthorizeRequest.code_challenge_method req)) in
  let* rateLimitError := checkRateLimit cfg (clientIp req) now in
  if Js.truthy rateLimitError then
    ret {| status := 429; body := page rateLimitError |}
  else
    match snd (safeComparePasswords (AuthorizeRequest.password req) (authPassword cfg)) with
    | None => ret uncaught
    | Some false =>
      let* _ := recordFailedAttempt cfg (clientIp req) now in
      ret {| status := 401; body := page (Some "Invalid password") |}
    | Some true =>
      clearRateLimit (clientIp req) >>
      let code := randomUUID bits in
      modify (fun s => with_authCodes (Js.setProperty (authCodes s) code
        {| AuthCode.client_id := AuthorizeRequest.client_id req;
           AuthCode.redirect_uri := AuthorizeRequest.redirect_uri req;
           AuthCode.code_challenge := AuthorizeRequest.code_challenge req;
           AuthCode.code_challenge_method := AuthorizeRequest.code_challenge_method req;
           AuthCode.expires := now + 60000 |}) s) >>
      modify (console_log ("Authorization granted for client: "
                             +:+ Js.ToString (AuthorizeRequest.client_id req))) >>
      ret (callback (AuthorizeRequest.redirect_uri req) code (AuthorizeRequest.state req))
    end.

(** [v === 'literal'] *)
Definition strictEq (v : option string) (literal : string) : bool :=
  match v with
  | Some s => (s =? literal)%string
  | None => false
  end.

(** [!authCode || authCode.expires < Date.now()]. An inherited property has
    no [expires]: [undefined < now] is [false]. *)
Definition invalidOrExpired (authCode : Js.Property AuthCode.t) (now : Z) : bool :=
  match authCode with
  | Js.Undefined => true
  | Js.Own c => AuthCode.expires c <? now
  | Js.Inherited _ => false
  end.

(** [app.post('/oauth/token')] *)
Definition postToken (req : TokenRequest.t) (now : Z) (bits : N) : M Response :=
  let issued :=
    {| status := 200;
       body := tokenJson (randomUUID bits) (OAUTH_TOKEN_EXPIRES_IN cfg) |} in
  if strictEq (TokenRequest.grant_type req) "client_credentials" then
    let client_id := Js.ToString (TokenRequest.client_id req) in
    let* unknown := gets (fun s => Js.missing (oauthClients s) client_id) in
    (if Js.truthy (TokenRequest.client_id req) && unknown then
       modify (fun s => with_oauthClients (Js.setProperty (oauthClients s) client_id
         {| OAuthClient.client_id := client_id;
            OAuthClient.client_secret := TokenRequest.client_secret req;
            OAuthClient.redirect_uris := [];
            OAuthClient.client_name := Some "Auto-registered Client";
            OAuthClient.created_at := now |}) s) >>
       modify (console_log ("Auto-registered OAuth client: " +:+ client_id))
     else ret tt) >>
    ret issued
  else if strictEq (TokenRequest.grant_type req) "authorization_code" then
    let code := Js.ToString (TokenRequest.code req) in
    let* authCode := gets (fun s => Js.getProperty (authCodes s) code) in
    if invalidOrExpired authCode now then
      modify (fun s => with_authCodes (Js.deleteProperty (authCodes s) code) s) >>
      ret {| status := 400;
             body := errorJson "invalid_grant" "Invalid or expired authorization code" |}
    else
      modify (fun s => with_authCodes (Js.deleteProperty (authCodes s) code) s) >>
      ret issued
  else
    ret {| status := 400;
           body := errorJson "unsupported_grant_type"
                     "Supported grant types: authorization_code, client_credentials" |}.

End OAuth.

(** ** MCP sessions *)

(** What [transport.handleRequest(req, res, body)] does: it answers the
    request itself, or it raises, with the response started or not. *)
Inductive TransportReply : Type :=
| Handles
| Throws (headersSent : bool).

(** What a freshly created transport does with the first request:
    [server.connect(transport)] may raise; [handleRequest] may accept the
    initialization, in which case it takes a session id from
    [sessionIdGenerator], stores it in [transport.sessionId] and calls
    [onsessioninitialized] with it, before it answers or raises. *)
Record InitReply : Type := mkInitReply {
  connect_throws : bool;
  confirms : bool;
  reply : TransportReply
}.

(** What [transport.close()] does: it may call [transport.onclose], and it
    may raise. *)
Record CloseReply : Type := mkCloseReply {
  fires_onclose : bool;
  close_throws : bool
}.

Inductive McpResult : Type :=
| Delegated (transport : Transport)
| Replied (response : Response)
| Aborted.

Section Sessions.

Variable cfg : Config.

Local Open Scope handler_scope.

(** The [catch] block of [mcpPostHandler]. *)
Definition caught (headersSent : bool) : M McpResult :=
  modify (console_log "Error handling MCP request:") >>
  if negb headersSent then
    ret (Replied {| status := 500;
                    body := jsonRpcError (-32603) "Internal server error" |})
  else ret Aborted.

Definition handleRequest (transport : Transport) (r : TransportReply) : M McpResult :=
  match r with
  | Handles => ret (Delegated transport)
  | Throws headersSent => caught headersSent
  end.

(** [mcpPostHandler]. [isInitializeRequest] is the SDK's verdict on
    [req.body]; [existing] is the reply of a registered transport, [init]
    that of a new one. *)
Definition mcpPostHandler (mcp_session_id : option string) (isInitializeRequest : bool)
    (existing : TransportReply) (init : InitReply) (bits : N) : M McpResult :=
  let* found := gets (fun s =>
    if Js.truthy mcp_session_id
    then Js.getProperty (transports s) (Js.ToString mcp_session_id)
    else Js.Undefined) in
  match found with
  | Js.Own transport => handleRequest transport existing
  | Js.Inherited _ =>
    (* [transport.handleRequest] is not a function: a [TypeError] *)
    caught false
  | Js.Undefined =>
    if negb (Js.truthy mcp_session_id) && isInitializeRequest then
      if connect_throws init then caught false
      else if confirms init then
        let sid := randomUUID bits in
        let transport := {| sessionId := Some sid |} in
        modify (console_log ("Session initialized: " +:+ sid)) >>
        modify (fun s => with_transports (Js.setProperty (transports s) sid transport) s) >>
        handleRequest transport (reply init)
      else handleRequest {| sessionId := None |} (reply init)
    else
      ret (Replied {| status := 400;
                      body := jsonRpcError (-32000) "Bad Request: No valid session ID" |})
  end.

(** A route registered as [app.post('/mcp', authMiddleware, handler)] when
    OAuth is on, and as [app.post('/mcp', handler)] when it is off. *)
Definition guarded (authorization : option string) (handler : M McpResult) : M McpResult :=
  if useOAuth cfg then
    match createAuthMiddleware authorization with
    | Rejected response => ret (Replied response)
    | Next _ => handler
    end
  else handler.

(** [POST /mcp] *)
Definition postMcp (authorization mcp_session_id : option string)
    (isInitializeRequest : bool) (existing : TransportReply) (init : InitReply) (bits : N)
  : M McpResult :=
  guarded authorization (mcpPostHandler mcp_session_id isInitializeRequest existing init bits).

(** [mcpGetHandler] and [mcpDeleteHandler] (the same code): no [catch]. *)
Definition mcpGetHandler (mcp_session_id : option string) (existing : TransportReply)
  : M McpResult :=
  let* found := gets (fun s => Js.getProperty (transports s) (Js.ToString mcp_session_id)) in
  match (if Js.truthy mcp_session_id then found else Js.Undefined) with
  | Js.Undefined => ret (Replied {| status := 400; body := sendText "Invalid or missing session ID" |})
  | Js.Own transport =>
    match existing with
    | Handles => ret (Delegated transport)
    | Throws _ => ret Aborted
    end
  | Js.Inherited _ => ret Aborted
  end.

(** [GET /mcp] and [DELETE /mcp] *)
Definition getMcp (authorization mcp_session_id : option string) (existing : TransportReply)
  : M McpResult :=
  guarded authorization (mcpGetHandler mcp_session_id existing).

(** The [transport.onclose] callback [mcpPostHandler] installs. *)
Definition onclose (transport : Transport) : M unit :=
  let sid := sessionId transport in
  let* registered := gets (fun s => negb (Js.missing (transports s) (Js.ToString sid))) in
  if Js.truthy sid && registered then
    modify (console_log ("Session closed: " +:+ Js.ToString sid)) >>
    modify (fun s => with_transports (Js.deleteProperty (transports s) (Js.ToString sid)) s)
  else ret tt.

(** One turn of the loop of [shutdown]. A key deleted since the loop began
    is not visited. *)
Definition closeSession (close : Transport -> CloseReply) (key : string) : M unit :=
  let* entry := gets (fun s => transports s !! key) in
  match entry with
  | None => ret tt
  | Some transport =>
    (if fires_onclose (close transport) then onclose transport else ret tt) >>
    if close_throws (close transport) then
      modify (console_log ("Error closing session " +:+ key +:+ ":"))
    else
      modify (fun s => with_transports (Js.deleteProperty (transports s) key) s)
  end.

Fixpoint forEach (keys : list string) (turn : string -> M unit) : M unit :=
  match keys with
  | [] => ret tt
  | key :: rest => turn key >> forEach rest turn
  end.

(** [shutdown], up to the end of the loop over [transports] (closing the
    database pool and the HTTP server follow). *)
Definition shutdown (close : Transport -> CloseReply) : M unit :=
  modify (console_log (String "010" "Shutting down...")) >>
  let* keys := gets (fun s => Js.forIn (transports s)) in
  forEach keys (closeSession close).

End Sessions.

(** * Vocabulary of the statements *)

(** Failed attempts of one caller, one after the other, at the given times. *)
Fixpoint recordFailures (cfg : Config) (ip : string) (times : list Z) (s : Server) : Server :=
  match times with
  | [] => s
  | now :: later => recordFailures cfg ip later (snd (recordFailedAttempt cfg ip now s))
  end.

(** Rate-limit checks of one caller, one after the other. *)
Fixpoint checkAll (cfg : Config) (ip : string) (times : list Z) : M (list (option string)) :=
  match times with
  | [] => ret []
  | now :: later =>
    bind (checkRateLimit cfg ip now) (fun r =>
    bind (checkAll cfg ip later) (fun rs => ret (r :: rs)))
  end.

(** The message of a lockout that ends at [until], read at [now]. *)
Definition lockoutMessage (until now : Z) : string :=
  "Too many failed attempts. Try again in "
    +:+ pretty (remainingSeconds until now) +:+ " seconds.".

Definition failuresSoFar (s : Server) (ip : string) : Z :=
  attempts (default {| attempts := 0; lockoutUntil := 0 |} (rateLimitState s !! ip)).

(** The store of [s] holds the code [randomUUID bits] with the expiry an
    authorize step at time [T] gives it. *)
Definition issued (s : Server) (bits : N) (T : Z) : Prop :=
  AuthCode.expires <$> (authCodes s !! randomUUID bits) = Some (T + 60000).

(** [POST /oauth/token] with [grant_type=authorization_code]. *)
Definition exchange (code : string) (client_id client_secret : option string)
  : TokenRequest.t :=
  {| TokenRequest.code := Some code;
     TokenRequest.grant_type := Some "authorization_code";
     TokenRequest.client_id := client_id;
     TokenRequest.client_secret := client_secret |}.

Definition invalid_grant : Response :=
  {| status := 400;
     body := errorJson "invalid_grant" "Invalid or expired authorization code" |}.

Definition accessToken (cfg : Config) (bits : N) : Response :=
  {| status := 200; body := tokenJson (randomUUID bits) (OAUTH_TOKEN_EXPIRES_IN cfg) |}.

(** A browser request with a PKCE challenge, as [GET /oauth/authorize]
    receives it. *)
Definition sampleAuthorize : AuthorizeRequest.t :=
  {| AuthorizeRequest.redirect_uri := Some "https://cb";
     AuthorizeRequest.state := Some "xyz";
     AuthorizeRequest.client_id := Some "c1";
     AuthorizeRequest.code_challenge := Some "E9Melhoa2OwvFrEMTJguCHaoeK1t8URWbuGJSstw-cM";
     AuthorizeRequest.code_challenge_method := Some "S256";
     AuthorizeRequest.password := None;
     AuthorizeRequest.ip := Some "203.0.113.7";
     AuthorizeRequest.remoteAddress := None |}.

(** [POST /oauth/token] with [grant_type=client_credentials]. *)
Definition clientCredentials (client_id client_secret code : option string)
  : TokenRequest.t :=
  {| TokenRequest.code := code;
     TokenRequest.grant_type := Some "client_credentials";
     TokenRequest.client_id := client_id;
     TokenRequest.client_secret := client_secret |}.

(** The record the token endpoint creates for an unknown client. *)
Definition autoRegistered (id : string) (client_secret : option string) (now : Z)
  : OAuthClient.t :=
  {| OAuthClient.client_id := id;
     OAuthClient.client_secret := client_secret;
     OAuthClient.redirect_uris := [];
     OAuthClient.client_name := Some "Auto-registered Client";
     OAuthClient.created_at := now |}.

Definition unauthorized : Response :=
  {| status := 401; body := errorJson "unauthorized" "Bearer token required" |}.

Definition invalid_token : Response :=
  {| status := 401; body := errorJson "invalid_token" "Invalid or expired token" |}.

Definition bad_request : Response :=
  {| status := 400; body := jsonRpcError (-32000) "Bad Request: No valid session ID" |}.

Definition internal_error : Response :=
  {| status := 500; body := jsonRpcError (-32603) "Internal server error" |}.

(** The session every registered transport answers for is its key, and no
    key is empty. *)
Definition registry_ok (s : Server) : Prop :=
  forall k t, transports s !! k = Some t -> sessionId t = Some k /\ k <> "".

(** A close that raises before the transport has called [onclose]. *)
Definition stuck (close : Transport -> CloseReply) (t : Transport) : bool :=
  close_throws (close t) && negb (fires_onclose (close t)).

Definition closeError (key : string) : string := "Error closing session " +:+ key +:+ ":".

(** What the loop leaves of an entry: it goes unless its close is stuck or
    the loop does not visit its key. *)
Definition remains (close : Transport -> CloseReply) (keys : list string)
    (m : gmap string Transport) (k : string) : option Transport :=
  match m !! k with
  | Some t => if bool_decide (k ∈ keys) && negb (stuck close t) then None else Some t
  | None => None
  end.

Definition secretConfig : Config :=
  {| useOAuth := true;
     OAUTH_TOKEN_EXPIRES_IN := 604800;
     RATE_LIMIT_MAX_ATTEMPTS := 5;
     RATE_LIMIT_WINDOW_MS := 900000;
     authPassword := Some "secret" |}.

Definition withPassword (password : string) : AuthorizeRequest.t :=
  {| AuthorizeRequest.redirect_uri := Some "https://cb";
     AuthorizeRequest.state := Some "xyz";
     AuthorizeRequest.client_id := Some "c1";
     AuthorizeRequest.code_challenge := Some "E9Melhoa2OwvFrEMTJguCHaoeK1t8URWbuGJSstw-cM";
     AuthorizeRequest.code_challenge_method := Some "S256";
     AuthorizeRequest.password := Some password;
     AuthorizeRequest.ip := Some "203.0.113.7";
     AuthorizeRequest.remoteAddress := None |}.

(** Password submissions of one browser, one after the other: the status of
    each answer. *)
Fixpoint submitAll (cfg : Config) (attempts : list (string * Z)) (s : Server)
  : list Z * Server :=
  match attempts with
  | [] => ([], s)
  | (password, now) :: later =>
    let (response, s1) := postAuthorize cfg (withPassword password) now 0 s in
    let (statuses, s2) := submitAll cfg later s1 in
    (status response :: statuses, s2)
  end.

(** * Vocabulary of the further properties *)

(** [ip] is refused at [now]: its entry carries a lockout that has not
    ended. *)
Definition activeLockout (s : Server) (ip : string) (now : Z) : bool :=
  match rateLimitState s !! ip with
  | Some e => lockoutUntil e >? now
  | None => false
  end.

(** The entry of [ip] has reached the threshold: once its lockout is over,
    the next check drops it. *)
Definition exhausted (cfg : Config) (s : Server) (ip : string) : bool :=
  match rateLimitState s !! ip with
  | Some e => attempts e >=? RATE_LIMIT_MAX_ATTEMPTS cfg
  | None => false
  end.

(** The state a passing rate-limit check leaves. *)
Definition afterCheck (cfg : Config) (s : Server) (ip : string) : Server :=
  if exhausted cfg s ip then with_rateLimitState (delete ip (rateLimitState s)) s else s.

(** The submitted password is the configured one, and one is configured. *)
Definition accepted (cfg : Config) (req : AuthorizeRequest.t) : bool :=
  Js.truthy (authPassword cfg)
  && bool_decide (AuthorizeRequest.password req = authPassword cfg).

(** Every entry of the rate-limit table counts at least one failure, and
    carries a lockout time only if the count has reached the threshold. *)
Definition rate_ok (cfg : Config) (s : Server) : Prop :=
  forall ip e, rateLimitState s !! ip = Some e ->
    1 <= attempts e /\ (attempts e < RATE_LIMIT_MAX_ATTEMPTS cfg -> lockoutUntil e = 0).

(** The entry [POST /oauth/authorize] stores for a request. *)
Definition codeFor (req : AuthorizeRequest.t) (now : Z) : AuthCode.t :=
  {| AuthCode.client_id := AuthorizeRequest.client_id req;
     AuthCode.redirect_uri := AuthorizeRequest.redirect_uri req;
     AuthCode.code_challenge := AuthorizeRequest.code_challenge req;
     AuthCode.code_challenge_method := AuthorizeRequest.code_challenge_method req;
     AuthCode.expires := now + 60000 |}.

(** The same request with another password typed in. *)
Definition retype (password : option string) (req : AuthorizeRequest.t)
  : AuthorizeRequest.t :=
  {| AuthorizeRequest.redirect_uri := AuthorizeRequest.redirect_uri req;
     AuthorizeRequest.state := AuthorizeRequest.state req;
     AuthorizeRequest.client_id := AuthorizeRequest.client_id req;
     AuthorizeRequest.code_challenge := AuthorizeRequest.code_challenge req;
     AuthorizeRequest.code_challenge_method := AuthorizeRequest.code_challenge_method req;
     AuthorizeRequest.password := password;
     AuthorizeRequest.ip := AuthorizeRequest.ip req;
     AuthorizeRequest.remoteAddress := AuthorizeRequest.remoteAddress req |}.

(** What [GET /mcp] and [DELETE /mcp] answer without a usable session id. *)
Definition invalid_session : Response :=
  {| status := 400; body := sendText "Invalid or missing session ID" |}.

(** Every stored code expires at most a minute after [now]. *)
Definition codes_ok (now : Z) (s : Server) : Prop :=
  forall code c, authCodes s !! code = Some c -> AuthCode.expires c <= now + 60000.

(** * The database client, the schema loader and the helpers of the tools

    The tools registered by [createMcpServer] run through these functions.
    The database is outside the program: what a connection, a statement or
    a loader does is an input ([Settled], [Database], the [load] arguments).
    An [await] is taken as one step: no other request is interleaved. *)

(** ** Text helpers *)

(** [s.replace(/c/g, replacement)] for a one-character pattern. *)
Fixpoint replaceAll (c : ascii) (replacement : string) (s : string) : string :=
  match s with
  | EmptyString => EmptyString
  | String a rest =>
    if Ascii.eqb a c then replacement +:+ replaceAll c replacement rest
    else String a (replaceAll c replacement rest)
  end.

(** [items.join(separator)] *)
Fixpoint join (separator : string) (items : list string) : string :=
  match items with
  | [] => EmptyString
  | [item] => item
  | item :: rest => item +:+ separator +:+ join separator rest
  end.

(** The double quote, the bar and the line feed. *)
Definition dquote : ascii := "034"%char.
Definition bar : ascii := "|"%char.
Definition newline : ascii := "010"%char.

(** [quoteIdentifier(name)] of the table statistics tool. *)
Definition quoteIdentifier (name : string) : string :=
  String dquote (replaceAll dquote (String dquote (String dquote EmptyString)) name
                 +:+ String dquote EmptyString).

(** A value found in a result row, by what [escapeCell] asks of it: [null],
    [undefined], an object (with the text [JSON.stringify] gives for it),
    or anything else (with the text [String] gives for it). *)
Inductive CellValue : Type :=
| CellNull
| CellUndefined
| CellObject (json : string)
| CellOther (text : string).

(** [escapeCell(val)] of the query tool. *)
Definition escapeCell (val : CellValue) : string :=
  match val with
  | CellNull | CellUndefined => "NULL"
  | CellObject s | CellOther s =>
    replaceAll newline " " (replaceAll bar "\|" s)
  end.

(** ** [ensureArray] *)

(** What node-postgres hands over for an array column: an array, the text
    of a PostgreSQL array, or something else. *)
Inductive PgValue : Type :=
| PgArray (items : list string)
| PgText (value : string)
| PgOther.

(** The string without its last character, if that is [c]. *)
Fixpoint dropLast (c : ascii) (s : string) : string :=
  match s with
  | EmptyString => EmptyString
  | String a EmptyString => if Ascii.eqb a c then EmptyString else s
  | String a rest => String a (dropLast c rest)
  end.

(** [value.replace(/^\{|\}$/g, '')]: an opening brace at the very start and
    a closing brace at the very end are removed. *)
Definition stripBraces (value : string) : string :=
  match value with
  | String a rest => if Ascii.eqb a "{"%char then dropLast "}"%char rest
                     else dropLast "}"%char value
  | EmptyString => EmptyString
  end.

(** The loop of [ensureArray] from position [i] on, with the element under
    construction and the quote flag; the elements pushed from then on,
    the last one included. *)
Fixpoint splitElements (trimmed : string) (current : string) (inQuotes : bool)
  : list string :=
  match trimmed with
  | EmptyString => [current]
  | String ch rest =>
    if Ascii.eqb ch dquote then splitElements rest current (negb inQuotes)
    else if Ascii.eqb ch ","%char && negb inQuotes then
      current :: splitElements rest EmptyString inQuotes
    else splitElements rest (current +:+ String ch EmptyString) inQuotes
  end.

Definition ensureArray (value : PgValue) : list string :=
  match value with
  | PgArray items => items
  | PgText text =>
    let trimmed := stripBraces text in
    if (trimmed =? "")%string then [] else splitElements trimmed EmptyString false
  | PgOther => []
  end.

(** ** The metadata cache of the schema loader *)

Section SchemaLoader.

(** The loaded metadata are not looked into here. *)
Variables SchemaMetadata DatabaseContext OntologyMetadata : Type.

(** [getConfig().schemaRefreshIntervalMs] *)
Variable schemaRefreshIntervalMs : Z.

(** The four module-level variables. *)
Record MetadataCache : Type := mkMetadataCache {
  cachedSchema : option SchemaMetadata;
  cachedDatabaseContext : option DatabaseContext;
  cachedOntology : option OntologyMetadata;
  lastRefreshTime : Z
}.

Definition emptyCache : MetadataCache :=
  {| cachedSchema := None; cachedDatabaseContext := None; cachedOntology := None;
     lastRefreshTime := 0 |}.

(** [forceRefresh || !cached || now - lastRefreshTime > interval] *)
Definition mustLoad {A : Type} (forceRefresh : bool) (cached : option A) (now : Z)
    (c : MetadataCache) : bool :=
  forceRefresh
  || match cached with Some _ => false | None => true end
  || (now - lastRefreshTime c >? schemaRefreshIntervalMs).

(** [getSchemaMetadata(forceRefresh)]. [load] is what [loadSchemaMetadata()]
    would give if it were called: the metadata, or [None] when it rejects,
    and then so does the call. *)
Definition getSchemaMetadata (forceRefresh : bool) (now : Z) (load : option SchemaMetadata)
    (c : MetadataCache) : option SchemaMetadata * MetadataCache :=
  if mustLoad forceRefresh (cachedSchema c) now c then
    match load with
    | Some loaded =>
      (Some loaded,
       {| cachedSchema := Some loaded;
          cachedDatabaseContext := cachedDatabaseContext c;
          cachedOntology := cachedOntology c;
          lastRefreshTime := now |})
    | None => (None, c)
    end
  else (cachedSchema c, c).

(** [getDatabaseContext(forceRefresh)] *)
Definition getDatabaseContext (forceRefresh : bool) (now : Z) (load : option DatabaseContext)
    (c : MetadataCache) : option DatabaseContext * MetadataCache :=
  if mustLoad forceRefresh (cachedDatabaseContext c) now c then
    match load with
    | Some loaded =>
      (Some loaded,
       {| cachedSchema := cachedSchema c;
          cachedDatabaseContext := Some loaded;
          cachedOntology := cachedOntology c;
          lastRefreshTime := lastRefreshTime c |})
    | None => (None, c)
    end
  else (cachedDatabaseContext c, c).

(** [getOntologyMetadata(forceRefresh)] *)
Definition getOntologyMetadata (forceRefresh : bool) (now : Z) (load : option OntologyMetadata)
    (c : MetadataCache) : option OntologyMetadata * MetadataCache :=
  if mustLoad forceRefresh (cachedOntology c) now c then
    match load with
    | Some loaded =>
      (Some loaded,
       {| cachedSchema := cachedSchema c;
          cachedDatabaseContext := cachedDatabaseContext c;
          cachedOntology := Some loaded;
          lastRefreshTime := lastRefreshTime c |})
    | None => (None, c)
    end
  else (cachedOntology c, c).

(** [clearSchemaCache()] *)
Definition clearSchemaCache (c : MetadataCache) : MetadataCache := emptyCache.

(** [forceRefreshSchema()]: the three forced loads, once all of them have
    settled; the summary is computed from the three results, and the call
    rejects ([None]) when one of the loads does. *)
Definition forceRefreshSchema (now : Z) (loadSchema : option SchemaMetadata)
    (loadContext : option DatabaseContext) (loadOntology : option OntologyMetadata)
    (c : MetadataCache)
  : option (SchemaMetadata * DatabaseContext * OntologyMetadata) * MetadataCache :=
  let c0 := clearSchemaCache c in
  let (schema, c1) := getSchemaMetadata true now loadSchema c0 in
  let (context, c2) := getDatabaseContext true now loadContext c1 in
  let (ontology, c3) := getOntologyMetadata true now loadOntology c2 in
  (match schema, context, ontology with
   | Some m, Some d, Some o => Some (m, d, o)
   | _, _, _ => None
   end, c3).

End SchemaLoader.

Arguments mkMetadataCache {SchemaMetadata DatabaseContext OntologyMetadata}.
Arguments cachedSchema {SchemaMetadata DatabaseContext OntologyMetadata}.
Arguments cachedDatabaseContext {SchemaMetadata DatabaseContext OntologyMetadata}.
Arguments cachedOntology {SchemaMetadata DatabaseContext OntologyMetadata}.
Arguments lastRefreshTime {SchemaMetadata DatabaseContext OntologyMetadata}.
Arguments emptyCache {SchemaMetadata DatabaseContext OntologyMetadata}.
Arguments mustLoad {SchemaMetadata DatabaseContext OntologyMetadata}
  schemaRefreshIntervalMs {A}.
Arguments getSchemaMetadata {SchemaMetadata DatabaseContext OntologyMetadata}.
Arguments getDatabaseContext {SchemaMetadata DatabaseContext OntologyMetadata}.
Arguments getOntologyMetadata {SchemaMetadata DatabaseContext OntologyMetadata}.
Arguments clearSchemaCache {SchemaMetadata DatabaseContext OntologyMetadata}.
Arguments forceRefreshSchema {SchemaMetadata DatabaseContext OntologyMetadata}.

(** ** The read-only query of the database client *)

(** A thrown value: an [Error] with its message, or anything else. *)
Inductive Thrown : Type :=
| ErrorObject (message : string)
| OtherValue.

(** A promise that has settled. *)
Inductive Settled (A : Type) : Type :=
| Fulfilled (value : A)
| Failed (error : Thrown).
Arguments Fulfilled {A} value.
Arguments Failed {A} error.

(** What the client did with its connection. *)
Inductive ClientEvent : Type :=
| Connected
| Sent (statement : string)
| Released.

Section Client.

(** A row object of node-postgres. *)
Variable RowObject : Type.

(** [containsBlockedKeywords(sql)]: the blocked keyword found, if any. Its
    regular expressions are not modelled; the query functions are stated
    for whatever it answers. *)
Variable containsBlockedKeywords : string -> option string.

(** [config.queryTimeoutMs] and [config.maxRows] *)
Variables queryTimeoutMs maxRows : Z.

(** What [client.query(sql)] resolves to: [result.fields] by name, and
    [result.rows]. *)
Record PgResult : Type := mkPgResult {
  fields : list string;
  pg_rows : list RowObject
}.

Record QueryResult : Type := mkQueryResult {
  columns : list string;
  rows : list RowObject;
  rowCount : Z;
  truncated : bool
}.

(** The database as one call of [query] meets it: how [pool.connect()] and
    each of the statements it may send settle. *)
Record Database : Type := mkDatabase {
  connects : Settled unit;
  sets_timeout : Settled unit;
  begins : Settled unit;
  runs : Settled PgResult;
  commits : Settled unit;
  rolls_back : Settled unit
}.

(** [array.slice(0, end)] *)
Definition slice0 {A : Type} (finish : Z) (items : list A) : list A :=
  if finish <? 0 then firstn (length items - Z.to_nat (- finish)) items
  else firstn (Z.to_nat finish) items.

(** [query(sql)]: the events on the connection, and what the call settles
    to. *)
Definition query (db : Database) (sql : string) : list ClientEvent * Settled QueryResult :=
  let blockedKeyword := containsBlockedKeywords sql in
  if Js.truthy blockedKeyword then
    ([], Failed (ErrorObject ("Query contains blocked keyword: "
                                +:+ Js.ToString blockedKeyword
                                +:+ ". Only SELECT queries are allowed.")))
  else
    match connects db with
    | Failed e => ([], Failed e)
    | Fulfilled _ =>
      let set := Sent ("SET statement_timeout = " +:+ pretty queryTimeoutMs) in
      match sets_timeout db with
      | Failed e => ([Connected; set; Released], Failed e)
      | Fulfilled _ =>
        match begins db with
        | Failed e => ([Connected; set; Sent "BEGIN READ ONLY"; Released], Failed e)
        | Fulfilled _ =>
          let rollback (queryError : Thrown) :=
            match rolls_back db with
            | Fulfilled _ => Failed queryError
            | Failed e => Failed e
            end in
          match runs db with
          | Failed queryError =>
            ([Connected; set; Sent "BEGIN READ ONLY"; Sent sql; Sent "ROLLBACK"; Released],
             rollback queryError)
          | Fulfilled result =>
            match commits db with
            | Failed queryError =>
              ([Connected; set; Sent "BEGIN READ ONLY"; Sent sql; Sent "COMMIT";
                Sent "ROLLBACK"; Released],
               rollback queryError)
            | Fulfilled _ =>
              ([Connected; set; Sent "BEGIN READ ONLY"; Sent sql; Sent "COMMIT"; Released],
               Fulfilled
                 {| columns := fields result;
                    rows := slice0 maxRows (pg_rows result);
                    rowCount := Z.of_nat (length (pg_rows result));
                    truncated := Z.of_nat (length (pg_rows result)) >=? maxRows |})
            end
          end
        end
      end
    end.

(** [rawQuery(sql)], used for the introspection queries and by the
    validation tool. *)
Definition rawQuery (db : Database) (sql : string) : list ClientEvent * Settled PgResult :=
  match connects db with
  | Failed e => ([], Failed e)
  | Fulfilled _ =>
    let set := Sent "SET statement_timeout = 60000" in
    match sets_timeout db with
    | Failed e => ([Connected; set; Released], Failed e)
    | Fulfilled _ => ([Connected; set; Sent sql; Released], runs db)
    end
  end.

(** [row[col]] *)
Variable cellOf : RowObject -> string -> CellValue.

(** The lines [formatQueryResult(result)] joins. *)
Definition formatQueryLines (result : QueryResult) : list string :=
  match rows result with
  | [] => ["Query returned 0 rows."]
  | _ =>
    ["| " +:+ join " | " (columns result) +:+ " |";
     "|" +:+ join "|" (map (fun _ => "---") (columns result)) +:+ "|"]
    ++ map (fun row =>
              "| " +:+ join " | " (map (fun col => escapeCell (cellOf row col))
                                       (columns result)) +:+ " |")
           (rows result)
    ++ [""; "*" +:+ pretty (rowCount result) +:+ " row(s)*"]
    ++ (if truncated result
        then [""; "> Results truncated. Add LIMIT to your query for better control."]
        else [])
  end%list.

(** [formatQueryResult(result)] *)
Definition formatQueryResult (result : QueryResult) : string :=
  join (String newline EmptyString) (formatQueryLines result).

(** What a tool returns: its one text block and the error flag. *)
Record ToolResult : Type := mkToolResult {
  text : string;
  isError : bool
}.

(** [executeQueryTool({ sql })] *)
Definition executeQueryTool (db : Database) (sql : string) : list ClientEvent * ToolResult :=
  match query db sql with
  | (events, Fulfilled result) =>
    (events, {| text := formatQueryResult result; isError := false |})
  | (events, Failed error) =>
    let errorMessage :=
      match error with
      | ErrorObject message => message
      | OtherValue => "Unknown error occurred"
      end in
    (events, {| text := "Error executing query: " +:+ errorMessage; isError := true |})
  end.

End Client.

Arguments mkPgResult {RowObject}.
Arguments fields {RowObject}.
Arguments pg_rows {RowObject}.
Arguments mkQueryResult {RowObject}.
Arguments columns {RowObject}.
Arguments rows {RowObject}.
Arguments rowCount {RowObject}.
Arguments truncated {RowObject}.
Arguments mkDatabase {RowObject}.
Arguments connects {RowObject}.
Arguments sets_timeout {RowObject}.
Arguments begins {RowObject}.
Arguments runs {RowObject}.
Arguments commits {RowObject}.
Arguments rolls_back {RowObject}.
Arguments query {RowObject}.
Arguments rawQuery {RowObject}.
Arguments formatQueryLines {RowObject}.
Arguments formatQueryResult {RowObject}.
Arguments executeQueryTool {RowObject}.

(** ** The background refresh of [startServer] *)

(** What the callback writes to the console. *)
Inductive ConsoleLine : Type :=
| ConsoleLog (line : string)
| ConsoleError (line : string).

Section BackgroundRefresh.

Variables SchemaMetadata DatabaseContext OntologyMetadata : Type.

(** [schema.tables.length] and [schema.views.length] *)
Variables tables views : SchemaMetadata -> nat.

Variable schemaRefreshIntervalMs : Z.

(** The callback given to [setInterval]. [now] and [later] are the times
    of its two calls of the schema loader, [loadOld] is what the first
    would load, the other three what the forced refresh loads. The error
    that is logged after the text of [console.error] is left out. *)
Definition schemaRefreshPulse (now later : Z) (loadOld loadSchema : option SchemaMetadata)
    (loadContext : option DatabaseContext) (loadOntology : option OntologyMetadata)
    (c : MetadataCache SchemaMetadata DatabaseContext OntologyMetadata)
  : list ConsoleLine * MetadataCache SchemaMetadata DatabaseContext OntologyMetadata :=
  match getSchemaMetadata schemaRefreshIntervalMs false now loadOld c with
  | (None, c1) => ([ConsoleError "Background schema refresh failed:"], c1)
  | (Some oldSchema, c1) =>
    let previousTableCount := tables oldSchema in
    let previousViewCount := views oldSchema in
    match forceRefreshSchema schemaRefreshIntervalMs later loadSchema loadContext
                             loadOntology c1 with
    | (None, c2) => ([ConsoleError "Background schema refresh failed:"], c2)
    | (Some (schema, _, _), c2) =>
      if negb (tables schema =? previousTableCount)%nat
         || negb (views schema =? previousViewCount)%nat
      then ([ConsoleLog ("Schema change detected: " +:+ pretty (tables schema)
                           +:+ " tables (was " +:+ pretty previousTableCount +:+ "), "
                           +:+ pretty (views schema) +:+ " views (was "
                           +:+ pretty previousViewCount +:+ ")")], c2)
      else ([], c2)
    end
  end.

End BackgroundRefresh.

Arguments schemaRefreshPulse {SchemaMetadata DatabaseContext OntologyMetadata}.

(** ** The configuration *)

(** [value.split(c)] for a one-character separator. *)
Fixpoint split (c : ascii) (value : string) : list string :=
  match value with
  | EmptyString => [EmptyString]
  | String a rest =>
    if Ascii.eqb a c then EmptyString :: split c rest
    else match split c rest with
         | first :: others => String a first :: others
         | [] => [String a EmptyString]
         end
  end.

(** The white space and line terminators that [trim] removes, in UTF-8:
    U+0009 to U+000D, U+0020, U+00A0, U+1680, U+2000 to U+200A, U+2028,
    U+2029, U+202F, U+205F, U+3000 and U+FEFF. *)
Definition utf8 (bytes : list nat) : string :=
  fold_right (fun b s => String (ascii_of_nat b) s) EmptyString bytes.

Definition whiteSpace : list string :=
  Eval cbv in
    map utf8
        [ [9]; [10]; [11]; [12]; [13]; [32]; [194; 160]; [225; 154; 128];
          [226; 128; 128]; [226; 128; 129]; [226; 128; 130]; [226; 128; 131];
          [226; 128; 132]; [226; 128; 133]; [226; 128; 134]; [226; 128; 135];
          [226; 128; 136]; [226; 128; 137]; [226; 128; 138];
          [226; 128; 168]; [226; 128; 169]; [226; 128; 175]; [226; 129; 159];
          [227; 128; 128]; [239; 187; 191] ]%nat.

(** [s.startsWith(w)] *)
Fixpoint startsWith (w s : string) : bool :=
  match w, s with
  | EmptyString, _ => true
  | String a w', String b s' => Ascii.eqb a b && startsWith w' s'
  | String _ _, EmptyString => false
  end.

(** [s] without its first [n] bytes. *)
Fixpoint dropBytes (n : nat) (s : string) : string :=
  match n, s with
  | S n', String _ rest => dropBytes n' rest
  | _, _ => s
  end.

(** [s.trimStart()]; [fuel] bounds the number of characters removed. *)
Fixpoint trimStartFrom (fuel : nat) (s : string) : string :=
  match fuel with
  | O => s
  | S fuel' =>
    match find (fun w => startsWith w s) whiteSpace with
    | Some w => trimStartFrom fuel' (dropBytes (String.length w) s)
    | None => s
    end
  end.

Definition trimStart (s : string) : string := trimStartFrom (String.length s) s.

(** [s.trimEnd()]: cut where only white space follows. *)
Fixpoint trimEnd (s : string) : string :=
  match s with
  | EmptyString => EmptyString
  | String a rest =>
    if (trimStart s =? "")%string then EmptyString else String a (trimEnd rest)
  end.

(** [s.trim()] *)
Definition trim (s : string) : string := trimEnd (trimStart s).

(** [parseExposedSchemas(value)] *)
Definition parseExposedSchemas (value : option string) : list string :=
  if negb (Js.truthy value) then ["public"]
  else List.filter (fun s => negb (s =? "")%string)
                   (map trim (split ","%char (Js.ToString value))).

(** [process.env.DEFAULT_SCHEMA || exposedSchemas[0] || 'public'] of
    [loadConfig], which [getDefaultSchema()] returns. *)
Definition defaultSchema (DEFAULT_SCHEMA : option string) (exposedSchemas : list string)
  : string :=
  Js.ToString (Js.or_else DEFAULT_SCHEMA
                          (Js.or_else (head exposedSchemas) (Some "public"))).

(** ** Vocabulary for the text helpers *)

(** [c] occurs in [s]. *)
Fixpoint occurs (c : ascii) (s : string) : bool :=
  match s with
  | EmptyString => false
  | String a rest => Ascii.eqb a c || occurs c rest
  end.

Definition backslash : ascii := "\"%char.

(** Every bar of [s] comes right after a backslash; [previous] is the
    character before [s]. *)
Fixpoint barsAfter (previous : ascii) (s : string) : bool :=
  match s with
  | EmptyString => true
  | String a rest =>
    (if Ascii.eqb a bar then Ascii.eqb previous backslash else true) && barsAfter a rest
  end.

Definition barsEscaped (s : string) : bool := barsAfter " "%char s.

(** How a quoted identifier is read in SQL text, after its opening quote:
    up to the first quote that is not doubled, a doubled quote standing
    for one quote. The identifier, and the text after its closing quote. *)
Fixpoint readQuotedBody (s : string) : option (string * string) :=
  match s with
  | EmptyString => None
  | String a rest =>
    if Ascii.eqb a dquote then
      match rest with
      | String b rest' =>
        if Ascii.eqb b dquote then
          match readQuotedBody rest' with
          | Some (name, after) => Some (String dquote name, after)
          | None => None
          end
        else Some (EmptyString, rest)
      | EmptyString => Some (EmptyString, EmptyString)
      end
    else
      match readQuotedBody rest with
      | Some (name, after) => Some (String a name, after)
      | None => None
      end
  end.

Definition readQuotedIdentifier (s : string) : option (string * string) :=
  match s with
  | String a rest => if Ascii.eqb a dquote then readQuotedBody rest else None
  | EmptyString => None
  end.

(** An element of the text of a PostgreSQL array: written bare, or between
    double quotes. *)
Record ArrayElement : Type := mkArrayElement {
  quoted : bool;
  element : string
}.

Definition renderElement (e : ArrayElement) : string :=
  if quoted e then String dquote (element e +:+ String dquote EmptyString)
  else element e.

Definition renderArray (elements : list ArrayElement) : string :=
  "{" +:+ join "," (map renderElement elements) +:+ "}".

(** The elements [ensureArray] is written for: no double quote inside, and
    a bare element is not empty and holds no comma. *)
Definition simpleElement (e : ArrayElement) : bool :=
  negb (occurs dquote (element e))
  && (quoted e
      || negb (occurs ","%char (element e)) && negb (element e =? "")%string).

(** ** Vocabulary for the database client *)

(** The statements [query] sends around the caller's. *)
Definition setTimeout (queryTimeoutMs : Z) : string :=
  "SET statement_timeout = " +:+ pretty queryTimeoutMs.

(** One connection, the statements sent on it, and its release. *)
Definition session (statements : list string) : list ClientEvent :=
  (Connected :: map Sent statements ++ [Released])%list.

(** The message of the error a blocked keyword raises. *)
Definition blockedMessage (keyword : string) : string :=
  "Query contains blocked keyword: " +:+ keyword +:+ ". Only SELECT queries are allowed.".

(** [error instanceof Error ? error.message : 'Unknown error occurred'] *)
Definition messageOf (error : Thrown) : string :=
  match error with
  | ErrorObject message => message
  | OtherValue => "Unknown error occurred"
  end.

(** * Properties *)

(** ** The JavaScript layer *)

Lemma hex_length (digits : nat) (x : N) (tail : string) :
  String.length (hex digits x tail) = (digits + String.length tail)%nat.
Proof.
  revert x tail. induction digits as [|n IH]; intros x tail; simpl.
  - reflexivity.
  - rewrite IH. simpl. lia.
Qed.

Lemma randomUUID_length (bits : N) : String.length (randomUUID bits) = 36%nat.
Proof.
  unfold randomUUID.
  repeat (rewrite hex_length; cbn [String.length]).
  reflexivity.
Qed.

Lemma inherited_length (k : string) :
  Js.inherited k = true -> (String.length k <= 20)%nat.
Proof.
  unfold Js.inherited. intros H.
  apply existsb_exists in H as (name & Hin & Heq).
  apply String.eqb_eq in Heq. subst name.
  repeat (destruct Hin as [<- | Hin]; [cbn; lia |]).
  destruct Hin.
Qed.

Lemma randomUUID_not_inherited (bits : N) : Js.inherited (randomUUID bits) = false.
Proof.
  destruct (Js.inherited (randomUUID bits)) eqn:E; [|reflexivity].
  apply inherited_length in E. rewrite randomUUID_length in E. lia.
Qed.

Lemma randomUUID_truthy (bits : N) : Js.truthy (Some (randomUUID bits)) = true.
Proof.
  unfold Js.truthy. destruct (String.eqb_spec (randomUUID bits) "") as [E | _]; [|reflexivity].
  apply (f_equal String.length) in E. rewrite randomUUID_length in E. discriminate.
Qed.

Lemma getProperty_own {V : Type} (obj : gmap string V) (k : string) (v : V) :
  obj !! k = Some v -> Js.getProperty obj k = Js.Own v.
Proof. intros E. unfold Js.getProperty. rewrite E. reflexivity. Qed.

Lemma getProperty_set {V : Type} (obj : gmap string V) (k : string) (v : V) :
  Js.getProperty (Js.setProperty obj k v) k = Js.Own v.
Proof. apply getProperty_own. apply lookup_insert_eq. Qed.

Lemma getProperty_deleted {V : Type} (obj : gmap string V) (k : string) :
  Js.inherited k = false ->
  Js.getProperty (Js.deleteProperty obj k) k = Js.Undefined.
Proof.
  intros E. unfold Js.getProperty, Js.deleteProperty.
  rewrite lookup_delete_eq, E. reflexivity.
Qed.

Lemma missing_spec {V : Type} (obj : gmap string V) (k : string) :
  Js.missing obj k = true <-> obj !! k = None /\ Js.inherited k = false.
Proof.
  unfold Js.missing, Js.getProperty.
  destruct (obj !! k); [|destruct (Js.inherited k)]; intuition congruence.
Qed.

(** ** Rate limiting *)

Lemma recordFailures_app cfg ip (a b : list Z) (s : Server) :
  recordFailures cfg ip (a ++ b) s = recordFailures cfg ip b (recordFailures cfg ip a s).
Proof. revert s. induction a as [|t a IH]; intros s; simpl; [reflexivity | apply IH]. Qed.

Lemma recordFailedAttempt_lookup cfg ip now (s : Server) :
  rateLimitState (snd (recordFailedAttempt cfg ip now s)) !! ip =
  Some {| attempts := failuresSoFar s ip + 1;
          lockoutUntil :=
            if failuresSoFar s ip + 1 >=? RATE_LIMIT_MAX_ATTEMPTS cfg
            then now + RATE_LIMIT_WINDOW_MS cfg
            else lockoutUntil (default {| attempts := 0; lockoutUntil := 0 |}
                                 (rateLimitState s !! ip)) |}.
Proof.
  unfold recordFailedAttempt, failuresSoFar. cbn [snd].
  destruct (_ >=? _); cbn; apply lookup_insert_eq.
Qed.

Lemma recordFailures_count cfg ip (times : list Z) (s : Server) :
  failuresSoFar (recordFailures cfg ip times s) ip
  = failuresSoFar s ip + Z.of_nat (length times).
Proof.
  revert s. induction times as [|t times IH]; intros s.
  - simpl. lia.
  - cbn [recordFailures length]. rewrite IH.
    unfold failuresSoFar at 1. rewrite recordFailedAttempt_lookup. cbn. lia.
Qed.

Lemma checkRateLimit_locked cfg ip now (s : Server) (e : RateLimitEntry) :
  rateLimitState s !! ip = Some e ->
  now < lockoutUntil e ->
  checkRateLimit cfg ip now s = (Some (lockoutMessage (lockoutUntil e) now), s).
Proof.
  intros E Hlt. unfold checkRateLimit. rewrite E.
  destruct (Z.gtb_spec (lockoutUntil e) now); [reflexivity | lia].
Qed.

Lemma checkRateLimit_elapsed cfg ip now (s : Server) (e : RateLimitEntry) :
  rateLimitState s !! ip = Some e ->
  lockoutUntil e <= now ->
  fst (checkRateLimit cfg ip now s) = None.
Proof.
  intros E Hle. unfold checkRateLimit. rewrite E.
  destruct (Z.gtb_spec (lockoutUntil e) now); [lia |].
  destruct (_ && _); reflexivity.
Qed.

Lemma lockoutMessage_truthy (until now : Z) :
  Js.truthy (Some (lockoutMessage until now)) = true.
Proof. reflexivity. Qed.

Lemma checkAll_locked cfg ip (times : list Z) (s : Server) (e : RateLimitEntry) :
  rateLimitState s !! ip = Some e ->
  Forall (fun now => now < lockoutUntil e) times ->
  checkAll cfg ip times s
  = (map (fun now => Some (lockoutMessage (lockoutUntil e) now)) times, s).
Proof.
  intros E. induction 1 as [|now later Hnow _ IH]; [reflexivity |].
  cbn [checkAll map]. unfold bind at 1.
  rewrite (checkRateLimit_locked _ _ _ _ _ E Hnow).
  unfold bind at 1. rewrite IH. reflexivity.
Qed.

(** C2. After the N-th consecutive failure of a caller (N the configured
    threshold, the failures starting from a caller without an entry and the
    N-th one happening at [tN]), every rate-limit check before
    [tN + window] returns the lockout message and leaves the table as it
    is, so does every sequence of such checks, and [POST /oauth/authorize]
    answers 429 with that message whatever password is sent, without
    touching the state; from [tN + window] on the check passes again. *)
Theorem lockout_after_threshold
    (cfg : Config) (ip : string) (earlier : list Z) (tN : Z) (s : Server) :
  rateLimitState s !! ip = None ->
  Z.of_nat (length earlier) + 1 = RATE_LIMIT_MAX_ATTEMPTS cfg ->
  let locked := recordFailures cfg ip (earlier ++ [tN]) s in
  let until := tN + RATE_LIMIT_WINDOW_MS cfg in
  (forall now, now < until ->
     checkRateLimit cfg ip now locked = (Some (lockoutMessage until now), locked))
  /\ (forall times, Forall (fun now => now < until) times ->
        checkAll cfg ip times locked
        = (map (fun now => Some (lockoutMessage until now)) times, locked))
  /\ (forall req now bits, clientIp req = ip -> now < until ->
        exists page,
          postAuthorize cfg req now bits locked
          = ({| status := 429; body := send page |}, locked)
          /\ page_error page = Some (lockoutMessage until now))
  /\ (forall now, until <= now -> fst (checkRateLimit cfg ip now locked) = None).
Proof.
  intros Hfresh Hcount locked until.
  assert (E : rateLimitState locked !! ip
              = Some {| attempts := RATE_LIMIT_MAX_ATTEMPTS cfg; lockoutUntil := until |}).
  { subst locked. rewrite recordFailures_app. cbn [recordFailures].
    rewrite recordFailedAttempt_lookup, recordFailures_count.
    unfold failuresSoFar at 1 2. rewrite Hfresh. cbn [default attempts].
    replace (0 + Z.of_nat (length earlier) + 1) with (RATE_LIMIT_MAX_ATTEMPTS cfg) by lia.
    destruct (Z.geb_spec (RATE_LIMIT_MAX_ATTEMPTS cfg) (RATE_LIMIT_MAX_ATTEMPTS cfg));
      [reflexivity | lia]. }
  repeat split.
  - intros now Hnow. exact (checkRateLimit_locked cfg ip now locked _ E Hnow).
  - intros times Hall. exact (checkAll_locked cfg ip times locked _ E Hall).
  - intros req now bits Hip Hnow. eexists. split.
    + unfold postAuthorize, bind. rewrite Hip.
      rewrite (checkRateLimit_locked cfg ip now locked _ E Hnow).
      cbn [lockoutUntil]. rewrite lockoutMessage_truthy. reflexivity.
    + cbn [getLoginPage page_error lockoutUntil]. rewrite lockoutMessage_truthy. reflexivity.
  - intros now Hnow. exact (checkRateLimit_elapsed cfg ip now locked _ E Hnow).
Qed.

(** Five failures of one address under the default configuration, the fifth
    at 5000 ms: a check one second later is refused for 899 seconds. *)
Lemma lockout_after_threshold_witness :
  rateLimitState emptyServer !! "203.0.113.7" = None
  /\ Z.of_nat (length [1000; 2000; 3000; 4000]) + 1 = RATE_LIMIT_MAX_ATTEMPTS defaultConfig
  /\ 6000 < 5000 + RATE_LIMIT_WINDOW_MS defaultConfig
  /\ fst (checkRateLimit defaultConfig "203.0.113.7" 6000
            (recordFailures defaultConfig "203.0.113.7"
               ([1000; 2000; 3000; 4000] ++ [5000]) emptyServer))
     = Some "Too many failed attempts. Try again in 899 seconds.".
Proof.
  split; [reflexivity |]. split; [reflexivity |]. split; [reflexivity |].
  rewrite (proj1 (lockout_after_threshold defaultConfig "203.0.113.7"
                    [1000; 2000; 3000; 4000] 5000 emptyServer eq_refl eq_refl)
                 6000 eq_refl).
  reflexivity.
Defined.

(** ** Password comparison *)

Lemma bytes_eqb_eq (a b : list byte) : bytes_eqb a b = true <-> a = b.
Proof.
  revert b. induction a as [|x a IH]; intros [|y b]; cbn; try (split; congruence).
  rewrite andb_true_iff, IH. split.
  - intros [Hxy ->]. apply byte_dec_bl in Hxy. congruence.
  - intros [= -> ->]. split; [apply byte_dec_lb |]; reflexivity.
Qed.

Lemma skipn_repeat_bytes (n m : nat) (x : byte) :
  skipn n (repeat x m) = repeat x (m - n).
Proof.
  revert m. induction n as [|n IH]; intros [|m]; cbn; try reflexivity. apply IH.
Qed.

Lemma Buffer_copy_alloc_length (source : list byte) (n : nat) :
  length (Buffer_copy source (Buffer_alloc n)) = n.
Proof.
  unfold Buffer_copy, Buffer_alloc.
  rewrite length_app, length_firstn, length_skipn, !repeat_length. lia.
Qed.

Lemma truthy_Some (s : string) : Js.truthy (Some s) = true <-> s <> "".
Proof.
  cbn. destruct (String.eqb_spec s ""); cbn; split; intros; congruence.
Qed.

Lemma truthy_inv (v : option string) :
  Js.truthy v = true -> exists s, v = Some s /\ s <> "".
Proof.
  destruct v as [s|]; [|discriminate]. intros H. exists s. split; [reflexivity |].
  apply truthy_Some. exact H.
Qed.

Lemma safeComparePasswords_falsy (provided expected : option string) :
  Js.truthy provided = false \/ Js.truthy expected = false ->
  safeComparePasswords provided expected = ([], Some false).
Proof.
  unfold safeComparePasswords. intros [-> | ->]; cbn [negb orb]; [reflexivity |].
  rewrite orb_true_r. reflexivity.
Qed.

Lemma safeComparePasswords_same_length (p e : string) :
  p <> "" -> e <> "" ->
  length (Buffer_from p) = length (Buffer_from e) ->
  safeComparePasswords (Some p) (Some e)
  = ([{| compared := Buffer_from p; against := Buffer_from e |}],
     Some (bytes_eqb (Buffer_from p) (Buffer_from e))).
Proof.
  intros Hp He Hlen. unfold safeComparePasswords.
  apply truthy_Some in Hp, He. rewrite Hp, He. cbn [negb orb Js.ToString].
  unfold timingSafeEqual. rewrite Hlen, Nat.eqb_refl. reflexivity.
Qed.

Lemma safeComparePasswords_other_length (p e : string) :
  p <> "" -> e <> "" ->
  length (Buffer_from p) <> length (Buffer_from e) ->
  safeComparePasswords (Some p) (Some e)
  = ([{| compared := firstn (length (Buffer_from e)) (Buffer_from p)
                     ++ repeat x00 (length (Buffer_from e) - length (Buffer_from p));
         against := Buffer_from e |}],
     Some false).
Proof.
  intros Hp He Hlen. unfold safeComparePasswords.
  apply truthy_Some in Hp, He. rewrite Hp, He. cbn [negb orb Js.ToString].
  apply Nat.eqb_neq in Hlen. rewrite Hlen. cbn [negb].
  unfold timingSafeEqual. rewrite Buffer_copy_alloc_length, Nat.eqb_refl.
  unfold Buffer_copy, Buffer_alloc. rewrite repeat_length, skipn_repeat_bytes. reflexivity.
Qed.

(** C3. [safeComparePasswords] never raises; it returns [true] exactly when
    both inputs are non-empty strings with the same bytes; when an input is
    empty or [undefined] it returns [false] without calling
    [timingSafeEqual]; when both are non-empty and their lengths differ it
    calls [timingSafeEqual] once, on the expected buffer and a buffer of the
    expected length (the provided bytes cut or zero-padded to it), and then
    returns [false]. *)
Theorem safeComparePasswords_spec (provided expected : option string) :
  (snd (safeComparePasswords provided expected) = Some true
   <-> exists p e, provided = Some p /\ expected = Some e /\ p <> "" /\ e <> ""
                   /\ Buffer_from p = Buffer_from e)
  /\ (snd (safeComparePasswords provided expected) <> Some true ->
      snd (safeComparePasswords provided expected) = Some false)
  /\ (Js.truthy provided = false \/ Js.truthy expected = false ->
      safeComparePasswords provided expected = ([], Some false))
  /\ (forall p e, provided = Some p -> expected = Some e -> p <> "" -> e <> "" ->
      length (Buffer_from p) <> length (Buffer_from e) ->
      let padded := (firstn (length (Buffer_from e)) (Buffer_from p)
                     ++ repeat x00 (length (Buffer_from e) - length (Buffer_from p)))%list in
      safeComparePasswords provided expected
      = ([{| compared := padded; against := Buffer_from e |}], Some false)
      /\ length padded = length (Buffer_from e)).
Proof.
  split; [| split; [| split]].
  - split.
    + intros Htrue.
      destruct (Js.truthy provided) eqn:Tp;
        [| rewrite safeComparePasswords_falsy in Htrue by auto; discriminate].
      destruct (Js.truthy expected) eqn:Te;
        [| rewrite safeComparePasswords_falsy in Htrue by auto; discriminate].
      apply truthy_inv in Tp as (p & -> & Hp). apply truthy_inv in Te as (e & -> & He).
      exists p, e. repeat (split; [assumption || reflexivity |]).
      destruct (Nat.eq_dec (length (Buffer_from p)) (length (Buffer_from e))) as [Hlen | Hlen].
      * rewrite safeComparePasswords_same_length in Htrue by assumption.
        cbn in Htrue. apply bytes_eqb_eq. congruence.
      * rewrite safeComparePasswords_other_length in Htrue by assumption. discriminate.
    + intros (p & e & -> & -> & Hp & He & Heq).
      rewrite safeComparePasswords_same_length by (assumption || congruence).
      cbn. f_equal. apply bytes_eqb_eq. exact Heq.
  - intros Hnot.
    destruct (Js.truthy provided) eqn:Tp;
      [| rewrite safeComparePasswords_falsy by auto; reflexivity].
    destruct (Js.truthy expected) eqn:Te;
      [| rewrite safeComparePasswords_falsy by auto; reflexivity].
    apply truthy_inv in Tp as (p & -> & Hp). apply truthy_inv in Te as (e & -> & He).
    destruct (Nat.eq_dec (length (Buffer_from p)) (length (Buffer_from e))) as [Hlen | Hlen].
    + rewrite safeComparePasswords_same_length in * by assumption.
      cbn in *. destruct (bytes_eqb _ _); congruence.
    + rewrite safeComparePasswords_other_length by assumption. reflexivity.
  - apply safeComparePasswords_falsy.
  - intros p e -> -> Hp He Hlen padded. split.
    + apply safeComparePasswords_other_length; assumption.
    + subst padded. rewrite length_app, length_firstn, repeat_length. lia.
Qed.

(** The password "abc" against the configured "secret": three bytes against
    six. *)
Lemma safeComparePasswords_spec_witness :
  "abc" <> "" /\ "secret" <> ""
  /\ length (Buffer_from "abc") <> length (Buffer_from "secret")
  /\ safeComparePasswords (Some "abc") (Some "secret")
     = ([{| compared := ["a"; "b"; "c"; x00; x00; x00]%byte;
            against := ["s"; "e"; "c"; "r"; "e"; "t"]%byte |}], Some false).
Proof.
  assert (H1 : "abc" <> "") by discriminate.
  assert (H2 : "secret" <> "") by discriminate.
  assert (H3 : length (Buffer_from "abc") <> length (Buffer_from "secret"))
    by (cbn; lia).
  repeat (split; [assumption |]).
  exact (proj1 (proj2 (proj2 (proj2 (safeComparePasswords_spec (Some "abc") (Some "secret"))))
                 "abc" "secret" eq_refl eq_refl H1 H2 H3)).
Defined.

(** ** Authorization codes *)

Lemma getAuthorize_stores cfg (req : AuthorizeRequest.t) (T : Z) (bits : N) (s : Server) :
  Js.truthy (authPassword cfg) = false ->
  authCodes (snd (getAuthorize cfg req T bits s)) !! randomUUID bits
  = Some {| AuthCode.client_id := AuthorizeRequest.client_id req;
            AuthCode.redirect_uri := AuthorizeRequest.redirect_uri req;
            AuthCode.code_challenge := None;
            AuthCode.code_challenge_method := None;
            AuthCode.expires := T + 60000 |}.
Proof.
  intros Hpw. unfold getAuthorize. rewrite Hpw. cbn. apply lookup_insert_eq.
Qed.

Lemma postAuthorize_stores cfg (req : AuthorizeRequest.t) (T : Z) (bits : N) (s : Server) :
  status (fst (postAuthorize cfg req T bits s)) = 302 ->
  authCodes (snd (postAuthorize cfg req T bits s)) !! randomUUID bits
  = Some {| AuthCode.client_id := AuthorizeRequest.client_id req;
            AuthCode.redirect_uri := AuthorizeRequest.redirect_uri req;
            AuthCode.code_challenge := AuthorizeRequest.code_challenge req;
            AuthCode.code_challenge_method := AuthorizeRequest.code_challenge_method req;
            AuthCode.expires := T + 60000 |}.
Proof.
  unfold postAuthorize, bind.
  destruct (checkRateLimit cfg (clientIp req) T s) as [rateLimitError s1].
  destruct (Js.truthy rateLimitError); [discriminate |].
  destruct (snd (safeComparePasswords _ _)) as [[|]|]; [| | discriminate].
  - intros _. cbn. apply lookup_insert_eq.
  - destruct (recordFailedAttempt cfg (clientIp req) T s1). discriminate.
Qed.

Lemma getAuthorize_issues cfg (req : AuthorizeRequest.t) (T : Z) (bits : N) (s : Server) :
  Js.truthy (authPassword cfg) = false ->
  issued (snd (getAuthorize cfg req T bits s)) bits T.
Proof. intros H. unfold issued. rewrite getAuthorize_stores by exact H. reflexivity. Qed.

Lemma postAuthorize_issues cfg (req : AuthorizeRequest.t) (T : Z) (bits : N) (s : Server) :
  status (fst (postAuthorize cfg req T bits s)) = 302 ->
  issued (snd (postAuthorize cfg req T bits s)) bits T.
Proof. intros H. unfold issued. rewrite postAuthorize_stores by exact H. reflexivity. Qed.

Lemma postToken_accepts cfg (code : string) (c : AuthCode.t) cid sec (now : Z) (bits : N)
    (s : Server) :
  authCodes s !! code = Some c ->
  now <= AuthCode.expires c ->
  postToken cfg (exchange code cid sec) now bits s
  = (accessToken cfg bits, with_authCodes (delete code (authCodes s)) s).
Proof.
  intros E Hle. unfold postToken, exchange, bind, gets. cbn.
  rewrite (getProperty_own _ _ _ E). cbn.
  destruct (Z.ltb_spec (AuthCode.expires c) now); [lia | reflexivity].
Qed.

Lemma postToken_expired cfg (code : string) (c : AuthCode.t) cid sec (now : Z) (bits : N)
    (s : Server) :
  authCodes s !! code = Some c ->
  AuthCode.expires c < now ->
  postToken cfg (exchange code cid sec) now bits s
  = (invalid_grant, with_authCodes (delete code (authCodes s)) s).
Proof.
  intros E Hlt. unfold postToken, exchange, bind, gets. cbn.
  rewrite (getProperty_own _ _ _ E). cbn.
  destruct (Z.ltb_spec (AuthCode.expires c) now); [reflexivity | lia].
Qed.

Lemma postToken_unknown cfg (code : string) cid sec (now : Z) (bits : N) (s : Server) :
  authCodes s !! code = None ->
  Js.inherited code = false ->
  postToken cfg (exchange code cid sec) now bits s
  = (invalid_grant, with_authCodes (delete code (authCodes s)) s).
Proof.
  intros E Hk. unfold postToken, exchange, bind, gets. cbn.
  unfold Js.getProperty. rewrite E, Hk. reflexivity.
Qed.

Lemma issued_inv (s : Server) (bits : N) (T : Z) :
  issued s bits T ->
  exists c, authCodes s !! randomUUID bits = Some c /\ AuthCode.expires c = T + 60000.
Proof.
  unfold issued. destruct (authCodes s !! randomUUID bits) as [c|]; [| discriminate].
  intros [= E]. exists c. auto.
Qed.

(** C1, as amended. A code issued at [T] and still in the store, exchanged
    for the first time no later than [T + 60000]: that exchange returns an
    access token and deletes the entry, and the next exchange of the same
    code, whenever it comes, fails with [invalid_grant] (HTTP 400). *)
Theorem code_single_use cfg (bits : N) (T : Z) (s : Server)
    (now1 now2 : Z) (bits1 bits2 : N) (cid1 sec1 cid2 sec2 : option string) :
  issued s bits T ->
  now1 <= T + 60000 ->
  let first := postToken cfg (exchange (randomUUID bits) cid1 sec1) now1 bits1 s in
  let second := postToken cfg (exchange (randomUUID bits) cid2 sec2) now2 bits2 (snd first) in
  fst first = accessToken cfg bits1
  /\ authCodes (snd first) !! randomUUID bits = None
  /\ fst second = invalid_grant.
Proof.
  intros Hissued Hnow first second.
  destruct (issued_inv _ _ _ Hissued) as (c & E & Hexp).
  subst second first.
  rewrite (postToken_accepts cfg _ c) by (assumption || lia).
  cbn [fst snd]. split; [reflexivity |].
  assert (Hgone : authCodes (with_authCodes (delete (randomUUID bits) (authCodes s)) s)
                  !! randomUUID bits = None) by apply lookup_delete_eq.
  split; [exact Hgone |].
  rewrite postToken_unknown by (exact Hgone || apply randomUUID_not_inherited).
  reflexivity.
Qed.

(** A code issued at 1000 ms without a password, exchanged at 2000 ms and
    again at 3000 ms. *)
Lemma code_single_use_witness :
  let s := snd (getAuthorize defaultConfig sampleAuthorize 1000 1 emptyServer) in
  let first := postToken defaultConfig (exchange (randomUUID 1) None None) 2000 2 s in
  let second := postToken defaultConfig (exchange (randomUUID 1) None None) 3000 3 (snd first) in
  issued s 1 1000 /\ 2000 <= 1000 + 60000
  /\ fst first = accessToken defaultConfig 2
  /\ authCodes (snd first) !! randomUUID 1 = None
  /\ fst second = invalid_grant.
Proof.
  intros s first second.
  assert (H1 : issued s 1 1000) by reflexivity.
  assert (H2 : 2000 <= 1000 + 60000) by lia.
  split; [exact H1 |]. split; [exact H2 |].
  exact (code_single_use defaultConfig 1 1000 s 2000 3000 2 3 None None None None H1 H2).
Defined.

(** C1 as stated fails for a code that has expired: issued at 0 ms and first
    exchanged at 60001 ms, neither of the two exchanges succeeds. *)
Lemma code_single_use_counterexample :
  let s := snd (getAuthorize defaultConfig sampleAuthorize 0 1 emptyServer) in
  let first := postToken defaultConfig (exchange (randomUUID 1) None None) 60001 2 s in
  let second := postToken defaultConfig (exchange (randomUUID 1) None None) 60002 3 (snd first) in
  issued s 1 0 /\ fst first = invalid_grant /\ fst second = invalid_grant.
Proof. vm_compute. repeat split; reflexivity. Qed.

(** C4, as amended. A code issued at [T] and still in the store is refused
    with [invalid_grant] (and dropped) by any exchange later than
    [T + 60000]; an exchange up to and including [T + 60000] is accepted. *)
Theorem code_expiry cfg (bits : N) (T : Z) (s : Server) (now : Z) (bits' : N)
    (cid sec : option string) :
  issued s bits T ->
  (T + 60000 < now ->
   postToken cfg (exchange (randomUUID bits) cid sec) now bits' s
   = (invalid_grant, with_authCodes (delete (randomUUID bits) (authCodes s)) s))
  /\ (now <= T + 60000 ->
      postToken cfg (exchange (randomUUID bits) cid sec) now bits' s
      = (accessToken cfg bits', with_authCodes (delete (randomUUID bits) (authCodes s)) s)).
Proof.
  intros Hissued. destruct (issued_inv _ _ _ Hissued) as (c & E & Hexp). split; intros Hnow.
  - apply (postToken_expired cfg _ c); [exact E | lia].
  - apply (postToken_accepts cfg _ c); [exact E | lia].
Qed.

(** A code issued at 1000 ms: refused at 61001 ms. *)
Lemma code_expiry_witness :
  let s := snd (getAuthorize defaultConfig sampleAuthorize 1000 1 emptyServer) in
  issued s 1 1000 /\ 1000 + 60000 < 61001
  /\ fst (postToken defaultConfig (exchange (randomUUID 1) None None) 61001 2 s)
     = invalid_grant.
Proof.
  intros s.
  assert (H1 : issued s 1 1000) by reflexivity.
  assert (H2 : 1000 + 60000 < 61001) by lia.
  split; [exact H1 |]. split; [exact H2 |].
  rewrite (proj1 (code_expiry defaultConfig 1 1000 s 61001 2 None None H1) H2).
  reflexivity.
Defined.

(** C4 as stated fails at the boundary: a code issued at 1000 ms is still
    exchanged for a token at exactly 61000 ms. *)
Lemma code_expiry_counterexample :
  let s := snd (getAuthorize defaultConfig sampleAuthorize 1000 1 emptyServer) in
  issued s 1 1000
  /\ 61000 >= 1000 + 60000
  /\ fst (postToken defaultConfig (exchange (randomUUID 1) None None) 61000 2 s)
     = accessToken defaultConfig 2.
Proof. vm_compute. repeat split; try reflexivity. discriminate. Qed.

(** C6 fails on the path without a password: [GET /oauth/authorize] with a
    PKCE challenge in the query stores a code whose [code_challenge] and
    [code_challenge_method] are [undefined]. *)
Theorem auto_approve_drops_challenge :
  AuthorizeRequest.code_challenge sampleAuthorize
    = Some "E9Melhoa2OwvFrEMTJguCHaoeK1t8URWbuGJSstw-cM"
  /\ AuthorizeRequest.code_challenge_method sampleAuthorize = Some "S256"
  /\ authCodes (snd (getAuthorize defaultConfig sampleAuthorize 1000 1 emptyServer))
       !! randomUUID 1
     = Some {| AuthCode.client_id := Some "c1";
               AuthCode.redirect_uri := Some "https://cb";
               AuthCode.code_challenge := None;
               AuthCode.code_challenge_method := None;
               AuthCode.expires := 61000 |}.
Proof. repeat split. Qed.

(** ** Client credentials *)

Lemma postToken_registers cfg (id : string) sec code (now : Z) (bits : N) (s : Server) :
  id <> "" ->
  oauthClients s !! id = None ->
  Js.inherited id = false ->
  postToken cfg (clientCredentials (Some id) sec code) now bits s
  = (accessToken cfg bits,
     console_log ("Auto-registered OAuth client: " +:+ id)
       (with_oauthClients (<[id := autoRegistered id sec now]> (oauthClients s)) s)).
Proof.
  intros Hid Hnone Hinh. unfold postToken, clientCredentials, bind, gets. cbn.
  apply truthy_Some in Hid. cbn in Hid. rewrite Hid.
  assert (Hmiss : Js.missing (oauthClients s) id = true) by (apply missing_spec; auto).
  rewrite Hmiss. reflexivity.
Qed.

Lemma postToken_known cfg (id : string) (c : OAuthClient.t) sec code (now : Z) (bits : N)
    (s : Server) :
  oauthClients s !! id = Some c ->
  postToken cfg (clientCredentials (Some id) sec code) now bits s = (accessToken cfg bits, s).
Proof.
  intros E. unfold postToken, clientCredentials, bind, gets. cbn.
  unfold Js.missing. rewrite (getProperty_own _ _ _ E). rewrite andb_false_r. reflexivity.
Qed.

Lemma postToken_falsy_client cfg (client_id : option string) sec code (now : Z) (bits : N)
    (s : Server) :
  Js.truthy client_id = false ->
  postToken cfg (clientCredentials client_id sec code) now bits s = (accessToken cfg bits, s).
Proof.
  intros E. unfold postToken, clientCredentials, bind, gets. cbn. rewrite E. reflexivity.
Qed.

(** C5, as amended. A [client_credentials] exchange whose [client_id] is a
    non-empty string with no entry in the registry (and not the name of a
    property that object literals inherit) returns an access token and adds
    exactly one record for it, holding the secret that was sent; a replay
    with the same [client_id], whatever secret it carries, returns a token
    again and leaves the whole state, that record included, as it was. *)
Theorem auto_registration cfg (id : string) (sec sec' code code' : option string)
    (now now' : Z) (bits bits' : N) (s : Server) :
  id <> "" ->
  oauthClients s !! id = None ->
  Js.inherited id = false ->
  let first := postToken cfg (clientCredentials (Some id) sec code) now bits s in
  let replay := postToken cfg (clientCredentials (Some id) sec' code') now' bits' (snd first) in
  fst first = accessToken cfg bits
  /\ oauthClients (snd first) = <[id := autoRegistered id sec now]> (oauthClients s)
  /\ size (oauthClients (snd first)) = S (size (oauthClients s))
  /\ fst replay = accessToken cfg bits'
  /\ snd replay = snd first
  /\ oauthClients (snd replay) !! id = Some (autoRegistered id sec now).
Proof.
  intros Hid Hnone Hinh first replay.
  assert (E1 : first = (accessToken cfg bits,
             console_log ("Auto-registered OAuth client: " +:+ id)
               (with_oauthClients (<[id := autoRegistered id sec now]> (oauthClients s)) s)))
    by (apply postToken_registers; assumption).
  assert (E2 : replay = (accessToken cfg bits', snd first)).
  { subst replay. apply (postToken_known cfg id (autoRegistered id sec now)).
    rewrite E1. cbn. apply lookup_insert_eq. }
  rewrite E2. cbn [fst snd]. rewrite E1. cbn [fst snd console_log with_oauthClients oauthClients].
  repeat split.
  - apply map_size_insert_None. exact Hnone.
  - apply lookup_insert_eq.
Qed.

(** A first call and a replay with another secret, on an empty registry. *)
Lemma auto_registration_witness :
  let first := postToken defaultConfig (clientCredentials (Some "cli") (Some "s3cret") None)
                 1000 1 emptyServer in
  let replay := postToken defaultConfig (clientCredentials (Some "cli") (Some "other") None)
                  2000 2 (snd first) in
  "cli" <> "" /\ oauthClients emptyServer !! "cli" = None /\ Js.inherited "cli" = false
  /\ fst first = accessToken defaultConfig 1
  /\ fst replay = accessToken defaultConfig 2
  /\ oauthClients (snd replay) !! "cli" = Some (autoRegistered "cli" (Some "s3cret") 1000).
Proof.
  intros first replay.
  assert (H1 : "cli" <> "") by discriminate.
  assert (H2 : oauthClients emptyServer !! "cli" = None) by reflexivity.
  assert (H3 : Js.inherited "cli" = false) by reflexivity.
  repeat (split; [assumption |]).
  destruct (auto_registration defaultConfig "cli" (Some "s3cret") (Some "other") None None
              1000 2000 1 2 emptyServer H1 H2 H3) as (R1 & _ & _ & R2 & _ & R3).
  repeat split; assumption.
Defined.

(** C5 as stated fails for the empty [client_id], which the guard
    [client_id && ...] skips: the call succeeds and registers nothing. *)
Lemma auto_registration_counterexample :
  let first := postToken defaultConfig (clientCredentials (Some "") (Some "s3cret") None)
                 1000 1 emptyServer in
  oauthClients emptyServer !! "" = None
  /\ fst first = accessToken defaultConfig 1
  /\ oauthClients (snd first) !! "" = None
  /\ oauthClients (snd first) = ∅.
Proof. vm_compute. repeat split; reflexivity. Qed.

(** The same exchange with a [client_id] that names an inherited property:
    [oauthClients["toString"]] is a function, the client passes for a known
    one and is never registered. *)
Lemma inherited_client_not_registered cfg (id : string) sec code (now : Z) (bits : N)
    (s : Server) :
  Js.inherited id = true ->
  postToken cfg (clientCredentials (Some id) sec code) now bits s = (accessToken cfg bits, s).
Proof.
  intros Hinh. unfold postToken, clientCredentials, bind, gets. cbn.
  unfold Js.missing, Js.getProperty. rewrite Hinh.
  destruct (oauthClients s !! id); rewrite andb_false_r; reflexivity.
Qed.

(** C10. A [client_credentials] exchange without a [client_id] answers 200
    with a fresh access token, [token_type] "Bearer" and the configured
    [expires_in], and leaves the registry, and the rest of the state, as it
    was. *)
Theorem client_credentials_without_id cfg (sec code : option string) (now : Z) (bits : N)
    (s : Server) :
  postToken cfg (clientCredentials None sec code) now bits s
  = ({| status := 200;
        body := json (JObject [("access_token", JString (randomUUID bits));
                               ("token_type", JString "Bearer");
                               ("expires_in", JNumber (OAUTH_TOKEN_EXPIRES_IN cfg))]) |},
     s)
  /\ oauthClients (snd (postToken cfg (clientCredentials None sec code) now bits s))
     = oauthClients s.
Proof.
  rewrite postToken_falsy_client by reflexivity. split; reflexivity.
Qed.

(** ** Bearer middleware *)

Lemma substring_all (s : string) : substring 0 (String.length s) s = s.
Proof. induction s as [|c s IH]; cbn; [reflexivity | rewrite IH; reflexivity]. Qed.

Lemma createAuthMiddleware_no_bearer (authorization : option string) :
  (authorization = None
   \/ exists h, authorization = Some h /\ String.prefix "Bearer " h = false) ->
  createAuthMiddleware authorization = Rejected unauthorized.
Proof.
  unfold createAuthMiddleware.
  intros [-> | (h & -> & Hprefix)]; [reflexivity |].
  cbn [Js.ToString]. rewrite Hprefix, orb_true_r. reflexivity.
Qed.

Lemma createAuthMiddleware_token (token : string) :
  token <> "" ->
  createAuthMiddleware (Some ("Bearer " +:+ token)) = Next (substring 0 8 token +:+ "...").
Proof.
  intros Htoken. unfold createAuthMiddleware. cbn [Js.ToString].
  assert (Hrest : substring 7 (String.length ("Bearer " +:+ token) - 7) ("Bearer " +:+ token)
                  = token)
    by (cbv beta iota fix delta [append]; cbn; rewrite Nat.sub_0_r; apply substring_all).
  assert (Hprefix : String.prefix "Bearer " ("Bearer " +:+ token) = true)
    by (cbv beta iota fix delta [append]; cbn; destruct token; reflexivity).
  rewrite Hrest, Hprefix. apply truthy_Some in Htoken. rewrite Htoken. reflexivity.
Qed.

(** C8, as amended. With the middleware in front of a [/mcp] route (the
    [POST], [GET] and [DELETE] routes are all built by [guarded]): a request
    without an [Authorization] header, or with one that does not start
    with "Bearer ", is answered 401 with error "unauthorized"; the header
    "Bearer " with nothing after it is answered 401 with error
    "invalid_token"; a header "Bearer " followed by any non-empty token is
    passed on to the handler, whatever the token is. A rejected request
    never reaches the handler and changes nothing. *)
Theorem bearer_middleware cfg (handler : M McpResult) (s : Server) :
  useOAuth cfg = true ->
  (forall authorization,
      (authorization = None
       \/ exists h, authorization = Some h /\ String.prefix "Bearer " h = false) ->
      createAuthMiddleware authorization = Rejected unauthorized
      /\ guarded cfg authorization handler s = (Replied unauthorized, s))
  /\ (createAuthMiddleware (Some "Bearer ") = Rejected invalid_token
      /\ guarded cfg (Some "Bearer ") handler s = (Replied invalid_token, s))
  /\ (forall token, token <> "" ->
      createAuthMiddleware (Some ("Bearer " +:+ token)) = Next (substring 0 8 token +:+ "...")
      /\ guarded cfg (Some ("Bearer " +:+ token)) handler s = handler s).
Proof.
  intros Hon. unfold guarded. rewrite Hon. repeat split.
  - apply createAuthMiddleware_no_bearer; assumption.
  - rewrite createAuthMiddleware_no_bearer by assumption. reflexivity.
  - rewrite createAuthMiddleware_token by assumption. reflexivity.
  - rewrite createAuthMiddleware_token by assumption. reflexivity.
Qed.

(** No header, the empty token and an opaque token, with OAuth switched on. *)
Lemma bearer_middleware_witness :
  let init := {| connect_throws := false; confirms := false; reply := Handles |} in
  useOAuth defaultConfig = true
  /\ "not-a-real-token" <> ""
  /\ postMcp defaultConfig None None false Handles init 1 emptyServer
     = (Replied unauthorized, emptyServer)
  /\ getMcp defaultConfig (Some "Bearer ") None Handles emptyServer
     = (Replied invalid_token, emptyServer)
  /\ postMcp defaultConfig (Some "Bearer not-a-real-token") None false Handles init 1 emptyServer
     = mcpPostHandler None false Handles init 1 emptyServer.
Proof.
  intros init.
  assert (H1 : useOAuth defaultConfig = true) by reflexivity.
  assert (H2 : "not-a-real-token" <> "") by discriminate.
  split; [exact H1 |]. split; [exact H2 |].
  split; [| split].
  - exact (proj2 (proj1 (bearer_middleware defaultConfig
                           (mcpPostHandler None false Handles init 1) emptyServer H1)
                        None (or_introl eq_refl))).
  - exact (proj2 (proj1 (proj2 (bearer_middleware defaultConfig
                                  (mcpGetHandler None Handles) emptyServer H1)))).
  - exact (proj2 (proj2 (proj2 (bearer_middleware defaultConfig
                                  (mcpPostHandler None false Handles init 1) emptyServer H1))
                        "not-a-real-token" H2)).
Defined.

(** C8 as stated fails on the error code of a missing header: the code sends
    "unauthorized", not "invalid_request". *)
Lemma bearer_middleware_counterexample :
  createAuthMiddleware None
  = Rejected {| status := 401; body := errorJson "unauthorized" "Bearer token required" |}
  /\ createAuthMiddleware None
     <> Rejected {| status := 401;
                    body := errorJson "invalid_request" "Bearer token required" |}.
Proof. split; [reflexivity | discriminate]. Qed.

(** ** Session dispatch *)

Lemma mcpPostHandler_existing (sid : string) (t : Transport) isInit existing init bits
    (s : Server) :
  sid <> "" ->
  transports s !! sid = Some t ->
  mcpPostHandler (Some sid) isInit existing init bits s = handleRequest t existing s.
Proof.
  intros Hsid E. unfold mcpPostHandler, bind, gets.
  apply truthy_Some in Hsid. rewrite Hsid. cbn [Js.ToString].
  rewrite (getProperty_own _ _ _ E). reflexivity.
Qed.

Lemma mcpPostHandler_initialize (sid : option string) existing init bits (s : Server) :
  Js.truthy sid = false ->
  connect_throws init = false ->
  mcpPostHandler sid true existing init bits s
  = if confirms init then
      handleRequest {| sessionId := Some (randomUUID bits) |} (reply init)
        (with_transports
           (<[randomUUID bits := {| sessionId := Some (randomUUID bits) |}]> (transports s))
           (console_log ("Session initialized: " +:+ randomUUID bits) s))
    else handleRequest {| sessionId := None |} (reply init) s.
Proof.
  intros Hsid Hconnect. unfold mcpPostHandler, bind, gets, modify.
  rewrite Hsid, Hconnect. cbn [negb andb].
  destruct (confirms init); reflexivity.
Qed.

Lemma mcpPostHandler_rejects (sid : option string) isInit existing init bits (s : Server) :
  (Js.truthy sid = true /\ transports s !! Js.ToString sid = None
   /\ Js.inherited (Js.ToString sid) = false)
  \/ (Js.truthy sid = false /\ isInit = false) ->
  mcpPostHandler sid isInit existing init bits s = (Replied bad_request, s).
Proof.
  unfold mcpPostHandler, bind, gets.
  intros [(Hsid & Hnone & Hinh) | (Hsid & ->)]; rewrite Hsid.
  - unfold Js.getProperty. rewrite Hnone, Hinh. reflexivity.
  - reflexivity.
Qed.

Lemma mcpPostHandler_inherited (sid : string) isInit existing init bits (s : Server) :
  transports s !! sid = None ->
  Js.inherited sid = true ->
  mcpPostHandler (Some sid) isInit existing init bits s
  = (Replied internal_error, console_log "Error handling MCP request:" s).
Proof.
  intros Hnone Hinh. unfold mcpPostHandler, bind, gets.
  assert (Hsid : Js.truthy (Some sid) = true).
  { apply truthy_Some. intros ->. discriminate. }
  rewrite Hsid. cbn [Js.ToString]. unfold Js.getProperty. rewrite Hnone, Hinh. reflexivity.
Qed.

Lemma mcpPostHandler_registry_ok (sid : option string) isInit existing init bits (s : Server) :
  registry_ok s ->
  registry_ok (snd (mcpPostHandler sid isInit existing init bits s)).
Proof.
  intros Hok.
  assert (Hcaught : forall hs s', registry_ok s' -> registry_ok (snd (caught hs s'))).
  { intros hs s' H. unfold caught, bind, modify. destruct hs; exact H. }
  assert (Hhandle : forall t r s', registry_ok s' -> registry_ok (snd (handleRequest t r s'))).
  { intros t [|hs] s' H; [exact H | apply Hcaught; exact H]. }
  unfold mcpPostHandler, bind, gets.
  destruct (if Js.truthy sid then _ else _) as [t | name |].
  - apply Hhandle, Hok.
  - apply Hcaught, Hok.
  - destruct (negb (Js.truthy sid) && isInit); [| exact Hok].
    destruct (connect_throws init); [apply Hcaught, Hok |].
    destruct (confirms init); [| apply Hhandle, Hok].
    pose proof (randomUUID_truthy bits) as Hsid. apply truthy_Some in Hsid.
    revert Hsid. generalize (randomUUID bits). intros sid' Hsid.
    unfold modify. apply Hhandle. intros k t.
    cbn [snd transports with_transports console_log]. unfold Js.setProperty.
    rewrite lookup_insert. case_decide as Hk.
    + intros E. inversion E. subst k. split; [reflexivity | exact Hsid].
    + apply Hok.
Qed.

(** C7 fails on a session id that names an inherited property. With the
    header [mcp-session-id: constructor] and no such session registered,
    [transports["constructor"]] is the [Object] function: the handler takes
    the existing-session branch, the call of [handleRequest] on it raises,
    and the answer is 500 "Internal server error" instead of the 400. *)
Theorem inherited_session_id_not_rejected (isInit : bool) (existing : TransportReply)
    (init : InitReply) (bits : N) :
  transports emptyServer !! "constructor" = None
  /\ mcpPostHandler (Some "constructor") isInit existing init bits emptyServer
     = (Replied {| status := 500;
                   body := jsonRpcError (-32603) "Internal server error" |},
        console_log "Error handling MCP request:" emptyServer)
  /\ fst (mcpPostHandler (Some "constructor") isInit existing init bits emptyServer)
     <> Replied bad_request.
Proof.
  split; [reflexivity |].
  rewrite mcpPostHandler_inherited by reflexivity.
  split; [reflexivity | discriminate].
Qed.

(** ** Shutdown *)

Lemma closeSession_absent close (key : string) (s : Server) :
  transports s !! key = None -> closeSession close key s = (tt, s).
Proof. intros E. unfold closeSession, bind, gets. rewrite E. reflexivity. Qed.

Lemma closeSession_present close (key : string) (t : Transport) (s : Server) :
  registry_ok s ->
  transports s !! key = Some t ->
  let s' := snd (closeSession close key s) in
  transports s' = (if stuck close t then transports s else delete key (transports s))
  /\ (forall line, line ∈ console s -> line ∈ console s')
  /\ (close_throws (close t) = true -> closeError key ∈ console s').
Proof.
  intros Hok E. destruct (Hok _ _ E) as [Hsid Hkey].
  apply truthy_Some in Hkey.
  assert (Hreg : Js.missing (transports s) key = false).
  { unfold Js.missing. rewrite (getProperty_own _ _ _ E). reflexivity. }
  unfold closeSession, onclose, stuck, bind, gets, modify, closeError, ret. rewrite E.
  rewrite Hsid. cbn [Js.ToString].
  destruct (fires_onclose (close t)), (close_throws (close t)); rewrite ?Hkey, ?Hreg;
    cbn [snd negb andb transports console console_log with_transports Js.deleteProperty];
    unfold Js.deleteProperty; rewrite ?delete_delete_eq;
    (split; [reflexivity |]); (split; [| try discriminate]);
    intros; rewrite ?elem_of_app, ?list_elem_of_singleton; auto.
Qed.

Lemma closeSession_registry_ok close (key : string) (s : Server) :
  registry_ok s -> registry_ok (snd (closeSession close key s)).
Proof.
  intros Hok. destruct (transports s !! key) as [t|] eqn:E.
  - destruct (closeSession_present close key t s Hok E) as (Ht & _ & _).
    intros k t'. rewrite Ht. destruct (stuck close t); [apply Hok |].
    rewrite lookup_delete. case_decide; [discriminate | apply Hok].
  - rewrite closeSession_absent by exact E. exact Hok.
Qed.

Lemma closeSession_console close (key : string) (s : Server) (line : string) :
  registry_ok s -> line ∈ console s -> line ∈ console (snd (closeSession close key s)).
Proof.
  intros Hok Hin. destruct (transports s !! key) as [t|] eqn:E.
  - destruct (closeSession_present close key t s Hok E) as (_ & Hc & _). auto.
  - rewrite closeSession_absent by exact E. exact Hin.
Qed.

Lemma forEach_closeSession close (keys : list string) (s : Server) :
  registry_ok s ->
  let s' := snd (forEach keys (closeSession close) s) in
  (forall k, transports s' !! k = remains close keys (transports s) k)
  /\ (forall line, line ∈ console s -> line ∈ console s')
  /\ (forall k t, k ∈ keys -> transports s !! k = Some t ->
      close_throws (close t) = true -> closeError k ∈ console s').
Proof.
  revert s. induction keys as [|key keys IH]; intros s Hok.
  - cbn. split; [| split; [auto |]].
    + intros k. unfold remains. destruct (transports s !! k); reflexivity.
    + intros k t Hin. inversion Hin.
  - intros s'.
    destruct (closeSession close key s) as [[] s1] eqn:Hturn.
    assert (Hstep : s' = snd (forEach keys (closeSession close) s1)).
    { subst s'. cbn [forEach]. unfold bind at 1. rewrite Hturn. reflexivity. }
    clearbody s'. subst s'.
    assert (Hs1 : s1 = snd (closeSession close key s)) by (rewrite Hturn; reflexivity).
    assert (Hok1 : registry_ok s1) by (rewrite Hs1; apply closeSession_registry_ok, Hok).
    destruct (IH s1 Hok1) as (IHt & IHc & IHe).
    assert (Hother : forall k, k <> key -> transports s1 !! k = transports s !! k).
    { intros k Hne. destruct (transports s !! key) as [t|] eqn:E.
      - destruct (closeSession_present close key t s Hok E) as (Ht & _ & _).
        rewrite Hs1, Ht. destruct (stuck close t); [reflexivity |].
        apply lookup_delete_ne. congruence.
      - rewrite Hs1, closeSession_absent by exact E. reflexivity. }
    split; [| split].
    + intros k. rewrite IHt. unfold remains.
      destruct (decide (k = key)) as [-> | Hne].
      * rewrite (bool_decide_eq_true_2 (key ∈ key :: keys)) by apply list_elem_of_here.
        destruct (transports s !! key) as [t|] eqn:E.
        -- destruct (closeSession_present close key t s Hok E) as (Ht & _ & _).
           rewrite Hs1, Ht. destruct (stuck close t) eqn:Hstuck.
           ++ rewrite E, Hstuck, andb_false_r. reflexivity.
           ++ rewrite lookup_delete_eq. reflexivity.
        -- rewrite Hs1, closeSession_absent by exact E. cbn [snd]. rewrite E. reflexivity.
      * rewrite Hother by exact Hne.
        destruct (transports s !! k) as [t|]; [| reflexivity].
        assert (Hdec : bool_decide (k ∈ key :: keys) = bool_decide (k ∈ keys)).
        { apply bool_decide_ext. rewrite elem_of_cons. tauto. }
        rewrite Hdec. reflexivity.
    + intros line Hin. apply IHc. rewrite Hs1. apply closeSession_console; assumption.
    + intros k t Hin E Hthrows.
      destruct (decide (k = key)) as [-> | Hne].
      * apply IHc. rewrite Hs1.
        destruct (closeSession_present close key t s Hok E) as (_ & _ & He). auto.
      * apply elem_of_cons in Hin as [? | Hin]; [contradiction |].
        apply (IHe k t Hin); [| exact Hthrows]. rewrite Hother by exact Hne. exact E.
Qed.

Lemma elem_of_forIn (m : gmap string Transport) (k : string) (t : Transport) :
  m !! k = Some t -> k ∈ Js.forIn m.
Proof.
  intros E. unfold Js.forIn. apply list_elem_of_fmap. exists (k, t).
  split; [reflexivity |]. apply elem_of_map_to_list. exact E.
Qed.

(** C9, as amended. On a registry whose keys are the session ids of its
    transports, the shutdown loop visits every session: a session whose
    close raises is reported on the console and the loop goes on; after the
    loop a session is still registered exactly when its close raised before
    the transport had called [onclose]; in particular the registry is empty
    when no close raises. *)
Theorem shutdown_best_effort (close : Transport -> CloseReply) (s : Server) :
  registry_ok s ->
  let s' := snd (shutdown close s) in
  (forall k, transports s' !! k
             = match transports s !! k with
               | Some t => if stuck close t then Some t else None
               | None => None
               end)
  /\ (forall k t, transports s !! k = Some t -> close_throws (close t) = true ->
      closeError k ∈ console s')
  /\ ((forall k t, transports s !! k = Some t -> close_throws (close t) = false) ->
      transports s' = ∅).
Proof.
  intros Hok s'.
  set (s0 := console_log (String "010" "Shutting down...") s).
  assert (Hs' : s' = snd (forEach (Js.forIn (transports s)) (closeSession close) s0))
    by reflexivity.
  assert (Hok0 : registry_ok s0) by exact Hok.
  destruct (forEach_closeSession close (Js.forIn (transports s)) s0 Hok0) as (Ht & _ & He).
  rewrite <- Hs' in Ht, He.
  assert (Hlookup : forall k, transports s' !! k
             = match transports s !! k with
               | Some t => if stuck close t then Some t else None
               | None => None
               end).
  { intros k. rewrite Ht. unfold remains. cbn [s0 console_log transports].
    destruct (transports s !! k) as [t|] eqn:E; [| reflexivity].
    rewrite (bool_decide_eq_true_2 _ (elem_of_forIn _ _ _ E)).
    destruct (stuck close t); reflexivity. }
  split; [exact Hlookup |]. split.
  - intros k t E Hthrows. apply (He k t); [apply (elem_of_forIn _ _ _ E) | exact E | exact Hthrows].
  - intros Hall. apply map_eq. intros k. rewrite Hlookup, lookup_empty.
    destruct (transports s !! k) as [t|] eqn:E; [| reflexivity].
    unfold stuck. rewrite (Hall _ _ E). reflexivity.
Qed.

Lemma registry_ok_empty : registry_ok emptyServer.
Proof. intros k t E. cbn in E. rewrite lookup_empty in E. discriminate. Qed.

(** One session, created by an initialize request; every close succeeds. *)
Lemma shutdown_best_effort_witness :
  let s := snd (mcpPostHandler None true Handles (mkInitReply false true Handles) 5
                  emptyServer) in
  let close := fun _ : Transport => mkCloseReply true false in
  registry_ok s
  /\ transports s !! randomUUID 5 = Some {| sessionId := Some (randomUUID 5) |}
  /\ transports (snd (shutdown close s)) = ∅.
Proof.
  intros s close.
  assert (H : registry_ok s) by apply mcpPostHandler_registry_ok, registry_ok_empty.
  split; [exact H |]. split; [vm_compute; reflexivity |].
  apply (shutdown_best_effort close s H). intros k t _. reflexivity.
Defined.

(** C9 as stated fails when a close raises before the transport has called
    [onclose]: the [delete] behind it in the [try] block is skipped, and the
    session is still registered when the loop is over. *)
Lemma shutdown_best_effort_counterexample :
  let s := snd (mcpPostHandler None true Handles (mkInitReply false true Handles) 5
                  emptyServer) in
  let close := fun _ : Transport => mkCloseReply false true in
  transports (snd (shutdown close s)) !! randomUUID 5
    = Some {| sessionId := Some (randomUUID 5) |}
  /\ transports (snd (shutdown close s)) <> ∅
  /\ console (snd (shutdown close s))
     = ["Session initialized: 00000000-0000-0000-0000-000000000005";
        String "010" "Shutting down...";
        "Error closing session 00000000-0000-0000-0000-000000000005:"].
Proof.
  intros s close.
  assert (E : transports (snd (shutdown close s)) !! randomUUID 5
              = Some {| sessionId := Some (randomUUID 5) |}) by (vm_compute; reflexivity).
  split; [exact E |]. split; [| vm_compute; reflexivity].
  intros Hempty. rewrite Hempty, lookup_empty in E. clear -E. congruence.
Qed.

(** ** The three end-to-end scenarios *)

(** Scenario A: register, authorize without a password, exchange the code,
    exchange it again. *)
Example scenario_A :
  let registration :=
    {| RegistrationRequest.redirect_uris := Some ["https://cb"];
       RegistrationRequest.client_name := None |} in
  let (registered, s1) := handleClientRegistration registration 1000 1 emptyServer in
  let (authorized, s2) := getAuthorize defaultConfig sampleAuthorize 2000 2 s1 in
  let (first, s3) := postToken defaultConfig (exchange (randomUUID 2) None None) 3000 3 s2 in
  let (second, _) := postToken defaultConfig (exchange (randomUUID 2) None None) 4000 4 s3 in
  status registered = 201
  /\ body authorized
     = redirect "https://cb?code=00000000-0000-0000-0000-000000000002&state=xyz"
  /\ first = accessToken defaultConfig 3
  /\ second = invalid_grant.
Proof. vm_compute. repeat split; reflexivity. Qed.

(** Scenario B: five wrong passwords are answered 401, the sixth submission
    429 although its password is right, and the right password is accepted
    once the window is over. *)
Example scenario_B :
  fst (submitAll secretConfig
         [("wrong", 1000); ("wrong", 2000); ("wrong", 3000); ("wrong", 4000);
          ("wrong", 5000); ("secret", 6000); ("secret", 905000)] emptyServer)
  = [401; 401; 401; 401; 401; 429; 302].
Proof. vm_compute. reflexivity. Qed.

(** Scenario C: without a session id a request that is not an initialize
    request is refused, an initialize request opens a session, and the id
    it was given leads back to the same transport. *)
Example scenario_C :
  let accepts := {| connect_throws := false; confirms := true; reply := Handles |} in
  let (refused, s1) := mcpPostHandler None false Handles accepts 7 emptyServer in
  let (opened, s2) := mcpPostHandler None true Handles accepts 7 s1 in
  let (resumed, _) := mcpPostHandler (Some (randomUUID 7)) false Handles accepts 8 s2 in
  refused = Replied bad_request
  /\ opened = Delegated {| sessionId := Some "00000000-0000-0000-0000-000000000007" |}
  /\ resumed = opened.
Proof. vm_compute. repeat split; reflexivity. Qed.

(** * Further properties of the server *)

(** ** Password submissions *)

Lemma Buffer_from_inj (s1 s2 : string) : Buffer_from s1 = Buffer_from s2 -> s1 = s2.
Proof.
  unfold Buffer_from. intros E.
  rewrite <- (string_of_list_byte_of_string s1), <- (string_of_list_byte_of_string s2).
  congruence.
Qed.

Lemma safeComparePasswords_decides (provided expected : option string) :
  snd (safeComparePasswords provided expected)
  = Some (Js.truthy provided && Js.truthy expected && bool_decide (provided = expected)).
Proof.
  destruct (Js.truthy provided) eqn:Tp;
    [| rewrite safeComparePasswords_falsy by auto; reflexivity].
  destruct (Js.truthy expected) eqn:Te;
    [| rewrite safeComparePasswords_falsy by auto; reflexivity].
  apply truthy_inv in Tp as (p & -> & Hp). apply truthy_inv in Te as (e & -> & He).
  cbn [andb].
  destruct (Nat.eq_dec (length (Buffer_from p)) (length (Buffer_from e))) as [Hlen | Hlen].
  - rewrite safeComparePasswords_same_length by assumption. cbn [snd]. f_equal.
    destruct (bytes_eqb (Buffer_from p) (Buffer_from e)) eqn:Hb.
    + apply bytes_eqb_eq, Buffer_from_inj in Hb. subst e.
      symmetry. apply bool_decide_eq_true_2. reflexivity.
    + symmetry. apply bool_decide_eq_false_2. intros [= ->].
      assert (bytes_eqb (Buffer_from e) (Buffer_from e) = true) by (apply bytes_eqb_eq; reflexivity).
      congruence.
  - rewrite safeComparePasswords_other_length by assumption. cbn [snd]. f_equal.
    symmetry. apply bool_decide_eq_false_2. intros [= ->]. contradiction.
Qed.

Lemma accepted_decides cfg (req : AuthorizeRequest.t) :
  snd (safeComparePasswords (AuthorizeRequest.password req) (authPassword cfg))
  = Some (accepted cfg req).
Proof.
  rewrite safeComparePasswords_decides. unfold accepted. f_equal.
  destruct (decide (AuthorizeRequest.password req = authPassword cfg)) as [E | E].
  - rewrite E, (bool_decide_eq_true_2 _ eq_refl). destruct (Js.truthy (authPassword cfg)); reflexivity.
  - rewrite (bool_decide_eq_false_2 _ E), !andb_false_r. reflexivity.
Qed.

Lemma checkRateLimit_refuses cfg (ip : string) (now : Z) (s : Server) :
  activeLockout s ip now = true ->
  exists e, rateLimitState s !! ip = Some e
            /\ checkRateLimit cfg ip now s = (Some (lockoutMessage (lockoutUntil e) now), s).
Proof.
  unfold activeLockout, checkRateLimit.
  destruct (rateLimitState s !! ip) as [e|]; [| discriminate].
  intros H. exists e. rewrite H. auto.
Qed.

Lemma checkRateLimit_passes cfg (ip : string) (now : Z) (s : Server) :
  activeLockout s ip now = false ->
  checkRateLimit cfg ip now s = (None, afterCheck cfg s ip).
Proof.
  unfold activeLockout, checkRateLimit, afterCheck, exhausted.
  destruct (rateLimitState s !! ip) as [e|]; [| reflexivity].
  intros H. rewrite H.
  assert (Hle : (lockoutUntil e <=? now) = true).
  { apply Z.leb_le. destruct (Z.gtb_spec (lockoutUntil e) now); [discriminate | lia]. }
  rewrite Hle. cbn [andb]. destruct (attempts e >=? _); reflexivity.
Qed.

(** [POST /oauth/authorize], branch by branch. *)
Lemma postAuthorize_run cfg (req : AuthorizeRequest.t) (now : Z) (bits : N) (s : Server) :
  let ip := clientIp req in
  let page error :=
    send (getLoginPage error
            (AuthorizeRequest.redirect_uri req) (AuthorizeRequest.state req)
            (AuthorizeRequest.client_id req) (AuthorizeRequest.code_challenge req)
            (AuthorizeRequest.code_challenge_method req)) in
  postAuthorize cfg req now bits s
  = if activeLockout s ip now then
      ({| status := 429;
          body := page (Some (lockoutMessage
                                (lockoutUntil (default {| attempts := 0; lockoutUntil := 0 |}
                                                 (rateLimitState s !! ip))) now)) |}, s)
    else if accepted cfg req then
      (callback (AuthorizeRequest.redirect_uri req) (randomUUID bits)
         (AuthorizeRequest.state req),
       console_log ("Authorization granted for client: "
                      +:+ Js.ToString (AuthorizeRequest.client_id req))
         (with_authCodes
            (<[randomUUID bits := codeFor req now]> (authCodes (afterCheck cfg s ip)))
            (with_rateLimitState (delete ip (rateLimitState (afterCheck cfg s ip)))
               (afterCheck cfg s ip))))
    else
      ({| status := 401; body := page (Some "Invalid password") |},
       snd (recordFailedAttempt cfg ip now (afterCheck cfg s ip))).
Proof.
  intros ip page. unfold postAuthorize, bind. fold ip.
  destruct (activeLockout s ip now) eqn:Hlock.
  - destruct (checkRateLimit_refuses cfg ip now s Hlock) as (e & E & ->).
    rewrite lockoutMessage_truthy, E. reflexivity.
  - rewrite (checkRateLimit_passes cfg ip now s Hlock). cbn [Js.truthy].
    rewrite accepted_decides.
    destruct (accepted cfg req).
    + reflexivity.
    + destruct (recordFailedAttempt cfg ip now (afterCheck cfg s ip)). reflexivity.
Qed.

Lemma accepted_true_iff cfg (req : AuthorizeRequest.t) :
  accepted cfg req = true
  <-> Js.truthy (authPassword cfg) = true
      /\ AuthorizeRequest.password req = authPassword cfg.
Proof.
  unfold accepted. rewrite andb_true_iff, bool_decide_eq_true. reflexivity.
Qed.

Lemma afterCheck_frame cfg (s : Server) (ip : string) :
  authCodes (afterCheck cfg s ip) = authCodes s
  /\ oauthClients (afterCheck cfg s ip) = oauthClients s
  /\ transports (afterCheck cfg s ip) = transports s
  /\ console (afterCheck cfg s ip) = console s.
Proof. unfold afterCheck. destruct (exhausted cfg s ip); repeat split. Qed.

Lemma recordFailedAttempt_frame cfg (ip : string) (now : Z) (s : Server) :
  authCodes (snd (recordFailedAttempt cfg ip now s)) = authCodes s
  /\ oauthClients (snd (recordFailedAttempt cfg ip now s)) = oauthClients s
  /\ transports (snd (recordFailedAttempt cfg ip now s)) = transports s.
Proof. unfold recordFailedAttempt. cbn [snd]. destruct (_ >=? _); repeat split. Qed.

Lemma afterCheck_lookup cfg (s : Server) (ip other : string) :
  rateLimitState (afterCheck cfg s ip) !! other
  = if decide (ip = other)
    then (if exhausted cfg s ip then None else rateLimitState s !! ip)
    else rateLimitState s !! other.
Proof.
  unfold afterCheck. destruct (exhausted cfg s ip); cbn.
  - rewrite lookup_delete. reflexivity.
  - case_decide; [subst |]; reflexivity.
Qed.

Lemma recordFailedAttempt_other cfg (ip other : string) (now : Z) (s : Server) :
  ip <> other ->
  rateLimitState (snd (recordFailedAttempt cfg ip now s)) !! other = rateLimitState s !! other.
Proof.
  intros Hne. unfold recordFailedAttempt. cbn [snd].
  destruct (_ >=? _); cbn; apply lookup_insert_ne; exact Hne.
Qed.

Lemma failuresSoFar_afterCheck cfg (s : Server) (ip : string) :
  failuresSoFar (afterCheck cfg s ip) ip
  = if exhausted cfg s ip then 0 else failuresSoFar s ip.
Proof.
  unfold failuresSoFar. rewrite afterCheck_lookup.
  rewrite decide_True by reflexivity. destruct (exhausted cfg s ip); reflexivity.
Qed.


(** X2. A submission with the right password from a caller that is not
    locked out is redirected with the new code and leaves the caller
    without a rate-limit entry: whatever failures were counted are
    forgotten, and the next failure counts as the first. *)
Theorem password_success_clears cfg (req : AuthorizeRequest.t) (now : Z) (bits : N)
    (s : Server) :
  activeLockout s (clientIp req) now = false ->
  Js.truthy (authPassword cfg) = true ->
  AuthorizeRequest.password req = authPassword cfg ->
  let s' := snd (postAuthorize cfg req now bits s) in
  fst (postAuthorize cfg req now bits s)
    = callback (AuthorizeRequest.redirect_uri req) (randomUUID bits)
        (AuthorizeRequest.state req)
  /\ rateLimitState s' !! clientIp req = None
  /\ forall later, failuresSoFar (snd (recordFailedAttempt cfg (clientIp req) later s'))
                     (clientIp req) = 1.
Proof.
  intros Hfree Hset Hpw s'. subst s'.
  assert (Hacc : accepted cfg req = true) by (apply accepted_true_iff; auto).
  rewrite postAuthorize_run, Hfree, Hacc. cbn [fst snd].
  assert (Hgone : forall m : gmap string RateLimitEntry, delete (clientIp req) m !! clientIp req = None)
    by (intros m; apply lookup_delete_eq).
  split; [reflexivity |]. split; [apply Hgone |].
  intros later. unfold failuresSoFar at 1. rewrite recordFailedAttempt_lookup.
  unfold failuresSoFar. cbn [rateLimitState console_log with_authCodes with_rateLimitState].
  rewrite Hgone. reflexivity.
Qed.

(** Three failures, then the right password: the entry is gone. *)
Lemma password_success_clears_witness :
  let s := recordFailures secretConfig "203.0.113.7" [1000; 2000; 3000] emptyServer in
  let req := withPassword "secret" in
  failuresSoFar s "203.0.113.7" = 3
  /\ activeLockout s (clientIp req) 4000 = false
  /\ Js.truthy (authPassword secretConfig) = true
  /\ AuthorizeRequest.password req = authPassword secretConfig
  /\ rateLimitState (snd (postAuthorize secretConfig req 4000 1 s)) !! clientIp req = None.
Proof.
  intros s req.
  assert (H1 : activeLockout s (clientIp req) 4000 = false) by (vm_compute; reflexivity).
  assert (H2 : Js.truthy (authPassword secretConfig) = true) by reflexivity.
  assert (H3 : AuthorizeRequest.password req = authPassword secretConfig) by reflexivity.
  split; [vm_compute; reflexivity |]. repeat (split; [assumption |]).
  exact (proj1 (proj2 (password_success_clears secretConfig req 4000 1 s H1 H2 H3))).
Defined.



(** X4. A password submission touches the rate-limit entry of the
    submitting address only: the entry of every other address is what it
    was, whatever the outcome. *)
Theorem rate_limit_isolation cfg (req : AuthorizeRequest.t) (now : Z) (bits : N)
    (s : Server) (other : string) :
  other <> clientIp req ->
  rateLimitState (snd (postAuthorize cfg req now bits s)) !! other
  = rateLimitState s !! other.
Proof.
  intros Hne. rewrite postAuthorize_run.
  assert (Hcheck : rateLimitState (afterCheck cfg s (clientIp req)) !! other
                   = rateLimitState s !! other).
  { rewrite afterCheck_lookup. rewrite decide_False by congruence. reflexivity. }
  destruct (activeLockout s (clientIp req) now); [reflexivity |].
  destruct (accepted cfg req); cbn [snd].
  - cbn [rateLimitState console_log with_authCodes with_rateLimitState].
    rewrite lookup_delete_ne by congruence. exact Hcheck.
  - rewrite recordFailedAttempt_other by congruence. exact Hcheck.
Qed.

(** Failures of one address leave another address free to log in. *)
Lemma rate_limit_isolation_witness :
  let s := recordFailures secretConfig "203.0.113.7" [1000; 2000; 3000; 4000] emptyServer in
  "198.51.100.9" <> clientIp (withPassword "wrong")
  /\ rateLimitState (snd (postAuthorize secretConfig (withPassword "wrong") 5000 1 s))
       !! "198.51.100.9" = None.
Proof.
  intros s.
  assert (H : "198.51.100.9" <> clientIp (withPassword "wrong")) by (intros [=]).
  split; [exact H |].
  rewrite (rate_limit_isolation secretConfig (withPassword "wrong") 5000 1 s _ H).
  vm_compute. reflexivity.
Defined.

Lemma rate_ok_afterCheck cfg (s : Server) (ip : string) :
  rate_ok cfg s -> rate_ok cfg (afterCheck cfg s ip).
Proof.
  intros Hok other e. rewrite afterCheck_lookup.
  case_decide as Heq; [subst other; destruct (exhausted cfg s ip); [discriminate |] |];
    apply Hok.
Qed.

Lemma rate_ok_recordFailedAttempt cfg (ip : string) (now : Z) (s : Server) :
  rate_ok cfg s -> rate_ok cfg (snd (recordFailedAttempt cfg ip now s)).
Proof.
  intros Hok other e. destruct (decide (ip = other)) as [Heq | Hne].
  - subst other. rewrite recordFailedAttempt_lookup. intros [= <-]. cbn [attempts lockoutUntil].
    unfold failuresSoFar.
    destruct (rateLimitState s !! ip) as [old|] eqn:E; simpl.
    + destruct (Hok _ _ E) as [Hpos Hzero]. split; [lia |]. intros Hlt.
      destruct (Z.geb_spec (attempts old + 1) (RATE_LIMIT_MAX_ATTEMPTS cfg)); [lia |].
      apply Hzero. lia.
    + split; [lia |]. intros Hlt.
      destruct (Z.geb_spec (0 + 1) (RATE_LIMIT_MAX_ATTEMPTS cfg)); [lia | reflexivity].
  - rewrite recordFailedAttempt_other by exact Hne. apply Hok.
Qed.

Lemma rate_ok_clearRateLimit cfg (ip : string) (s : Server) :
  rate_ok cfg s -> rate_ok cfg (snd (clearRateLimit ip s)).
Proof.
  intros Hok other e. unfold clearRateLimit, modify. cbn.
  rewrite lookup_delete. case_decide; [discriminate | apply Hok].
Qed.

Lemma rate_ok_empty cfg : rate_ok cfg emptyServer.
Proof. intros k e E. cbn in E. rewrite lookup_empty in E. discriminate. Qed.

(** X5. The rate-limit table keeps its shape: every entry counts at least
    one failure, and an entry below the threshold carries no lockout time.
    The rate-limit check, the recording of a failure, the clearing of an
    entry and the whole password submission handler preserve this shape
    (which the empty table of a fresh server has). *)
Theorem rate_limit_invariant cfg (ip : string) (req : AuthorizeRequest.t) (now : Z)
    (bits : N) (s : Server) :
  rate_ok cfg s ->
  rate_ok cfg (snd (checkRateLimit cfg ip now s))
  /\ rate_ok cfg (snd (recordFailedAttempt cfg ip now s))
  /\ rate_ok cfg (snd (clearRateLimit ip s))
  /\ rate_ok cfg (snd (postAuthorize cfg req now bits s)).
Proof.
  intros Hok. split; [| split; [| split]].
  - destruct (activeLockout s ip now) eqn:Hlock.
    + destruct (checkRateLimit_refuses cfg ip now s Hlock) as (e & _ & ->). exact Hok.
    + rewrite checkRateLimit_passes by exact Hlock. apply rate_ok_afterCheck, Hok.
  - apply rate_ok_recordFailedAttempt, Hok.
  - apply rate_ok_clearRateLimit, Hok.
  - rewrite postAuthorize_run.
    destruct (activeLockout s (clientIp req) now); [exact Hok |].
    destruct (accepted cfg req); cbn [snd].
    + apply (rate_ok_clearRateLimit cfg (clientIp req) (afterCheck cfg s (clientIp req))).
      apply rate_ok_afterCheck, Hok.
    + apply rate_ok_recordFailedAttempt, rate_ok_afterCheck, Hok.
Qed.

(** A wrong password on a fresh server. *)
Lemma rate_limit_invariant_witness :
  rate_ok secretConfig emptyServer
  /\ rate_ok secretConfig
       (snd (postAuthorize secretConfig (withPassword "wrong") 1000 1 emptyServer)).
Proof.
  split; [apply rate_ok_empty |].
  exact (proj2 (proj2 (proj2 (rate_limit_invariant secretConfig "203.0.113.7"
                                (withPassword "wrong") 1000 1 emptyServer
                                (rate_ok_empty secretConfig))))).
Defined.

Lemma rate_ok_recordFailures cfg (ip : string) (times : list Z) (s : Server) :
  rate_ok cfg s -> rate_ok cfg (recordFailures cfg ip times s).
Proof.
  revert s. induction times as [|t times IH]; intros s Hok; [exact Hok |].
  cbn [recordFailures]. apply IH, rate_ok_recordFailedAttempt, Hok.
Qed.

(** X6. No lockout before the threshold: on a table of that shape, at a
    time that is not negative, a caller with fewer counted failures than
    the threshold passes the rate-limit check, the check changes nothing,
    and a password submission of that caller is not answered 429. *)
Theorem no_lockout_below_threshold cfg (req : AuthorizeRequest.t) (now : Z) (bits : N)
    (s : Server) :
  rate_ok cfg s ->
  0 <= now ->
  failuresSoFar s (clientIp req) < RATE_LIMIT_MAX_ATTEMPTS cfg ->
  checkRateLimit cfg (clientIp req) now s = (None, s)
  /\ status (fst (postAuthorize cfg req now bits s)) <> 429.
Proof.
  intros Hok Hnow Hfew.
  assert (Hfree : activeLockout s (clientIp req) now = false
                  /\ exhausted cfg s (clientIp req) = false).
  { unfold activeLockout, exhausted. unfold failuresSoFar in Hfew.
    destruct (rateLimitState s !! clientIp req) as [e|] eqn:E; [| auto].
    simpl in Hfew. destruct (Hok _ _ E) as [_ Hzero]. rewrite (Hzero Hfew).
    split; [destruct (Z.gtb_spec 0 now); [lia | reflexivity] |].
    destruct (Z.geb_spec (attempts e) (RATE_LIMIT_MAX_ATTEMPTS cfg)); [lia | reflexivity]. }
  destruct Hfree as [Hlock Hex]. split.
  - rewrite checkRateLimit_passes by exact Hlock. unfold afterCheck. rewrite Hex. reflexivity.
  - rewrite postAuthorize_run, Hlock. destruct (accepted cfg req); discriminate.
Qed.

(** Four failures under a threshold of five: the fifth submission is still
    looked at. *)
Lemma no_lockout_below_threshold_witness :
  let s := recordFailures secretConfig "203.0.113.7" [1000; 2000; 3000; 4000] emptyServer in
  rate_ok secretConfig s
  /\ 0 <= 5000
  /\ failuresSoFar s (clientIp (withPassword "secret")) < RATE_LIMIT_MAX_ATTEMPTS secretConfig
  /\ status (fst (postAuthorize secretConfig (withPassword "secret") 5000 1 s)) <> 429.
Proof.
  intros s.
  assert (H1 : rate_ok secretConfig s).
  { apply rate_ok_recordFailures, rate_ok_empty. }
  assert (H2 : 0 <= 5000) by lia.
  assert (H3 : failuresSoFar s (clientIp (withPassword "secret"))
               < RATE_LIMIT_MAX_ATTEMPTS secretConfig) by (vm_compute; reflexivity).
  repeat (split; [assumption |]).
  exact (proj2 (no_lockout_below_threshold secretConfig (withPassword "secret") 5000 1 s
                  H1 H2 H3)).
Defined.



(** ** The token endpoint and the client registry *)

Lemma postToken_oauthClients cfg (req : TokenRequest.t) (now : Z) (bits : N) (s : Server) :
  oauthClients (snd (postToken cfg req now bits s)) = oauthClients s
  \/ (Js.missing (oauthClients s) (Js.ToString (TokenRequest.client_id req)) = true
      /\ oauthClients (snd (postToken cfg req now bits s))
         = <[Js.ToString (TokenRequest.client_id req) :=
               autoRegistered (Js.ToString (TokenRequest.client_id req))
                 (TokenRequest.client_secret req) now]> (oauthClients s)).
Proof.
  unfold postToken, bind, gets, modify.
  destruct (strictEq (TokenRequest.grant_type req) "client_credentials").
  - destruct (Js.missing (oauthClients s) _) eqn:Hmiss;
      [| rewrite andb_false_r; left; reflexivity].
    destruct (Js.truthy (TokenRequest.client_id req)); [right | left]; auto.
  - destruct (strictEq (TokenRequest.grant_type req) "authorization_code"); [| left; reflexivity].
    destruct (invalidOrExpired _ now); left; reflexivity.
Qed.

(** X8. The client registry only grows: a record that is in the registry is
    still there, unchanged, after any call of the token endpoint, whatever
    grant, client id and secret the call carries, and after any dynamic
    registration that draws another id. *)
Theorem client_registry_append_only cfg (id : string) (c : OAuthClient.t)
    (token : TokenRequest.t) (registration : RegistrationRequest.t) (now : Z) (bits : N)
    (s : Server) :
  oauthClients s !! id = Some c ->
  oauthClients (snd (postToken cfg token now bits s)) !! id = Some c
  /\ (id <> randomUUID bits ->
      oauthClients (snd (handleClientRegistration registration now bits s)) !! id = Some c).
Proof.
  intros E. split.
  - destruct (postToken_oauthClients cfg token now bits s) as [-> | [Hmiss ->]]; [exact E |].
    apply missing_spec in Hmiss as [Hnone _].
    rewrite lookup_insert_ne; [exact E | congruence].
  - intros Hne. unfold handleClientRegistration.
    destruct (RegistrationRequest.redirect_uris registration) as [[|u us]|]; [exact E | | exact E].
    unfold bind, modify, ret. cbn [snd oauthClients console_log with_oauthClients].
    unfold Js.setProperty. rewrite lookup_insert_ne; [exact E | congruence].
Qed.

(** A client with a secret, then a call that presents the same id with
    another secret. *)
Lemma client_registry_append_only_witness :
  let s := snd (postToken defaultConfig (clientCredentials (Some "cli") (Some "s3cret") None)
                  1000 1 emptyServer) in
  oauthClients s !! "cli" = Some (autoRegistered "cli" (Some "s3cret") 1000)
  /\ oauthClients
       (snd (postToken defaultConfig (clientCredentials (Some "cli") (Some "stolen") None)
               2000 2 s)) !! "cli"
     = Some (autoRegistered "cli" (Some "s3cret") 1000).
Proof.
  intros s.
  assert (H : oauthClients s !! "cli" = Some (autoRegistered "cli" (Some "s3cret") 1000))
    by (vm_compute; reflexivity).
  split; [exact H |].
  exact (proj1 (client_registry_append_only defaultConfig "cli" _
                  (clientCredentials (Some "cli") (Some "stolen") None)
                  (RegistrationRequest.mk None None) 2000 2 s H)).
Defined.

(** X9. The token endpoint never adds an authorization code and never
    touches a code other than the one presented; it leaves the rate-limit
    table and the session registry alone; and a request whose grant type
    is neither of the two supported ones is answered 400
    "unsupported_grant_type" with the state unchanged. *)
Theorem token_endpoint_frame cfg (req : TokenRequest.t) (now : Z) (bits : N) (s : Server) :
  (forall k, k <> Js.ToString (TokenRequest.code req) ->
      authCodes (snd (postToken cfg req now bits s)) !! k = authCodes s !! k)
  /\ authCodes (snd (postToken cfg req now bits s)) ⊆ authCodes s
  /\ rateLimitState (snd (postToken cfg req now bits s)) = rateLimitState s
  /\ transports (snd (postToken cfg req now bits s)) = transports s
  /\ (TokenRequest.grant_type req <> Some "client_credentials" ->
      TokenRequest.grant_type req <> Some "authorization_code" ->
      postToken cfg req now bits s
      = ({| status := 400;
            body := errorJson "unsupported_grant_type"
                      "Supported grant types: authorization_code, client_credentials" |}, s)).
Proof.
  assert (Hgrant : forall literal, strictEq (TokenRequest.grant_type req) literal = true
                                   <-> TokenRequest.grant_type req = Some literal).
  { intros literal. unfold strictEq. destruct (TokenRequest.grant_type req) as [g|].
    - destruct (String.eqb_spec g literal); split; congruence.
    - split; discriminate. }
  unfold postToken, bind, gets, modify.
  destruct (strictEq (TokenRequest.grant_type req) "client_credentials") eqn:G1.
  - apply Hgrant in G1.
    destruct (Js.truthy (TokenRequest.client_id req) && _);
      cbn [snd authCodes rateLimitState transports console_log with_oauthClients];
      repeat split; try reflexivity; intros; congruence.
  - destruct (strictEq (TokenRequest.grant_type req) "authorization_code") eqn:G2.
    + apply Hgrant in G2.
      assert (Hsub : delete (Js.ToString (TokenRequest.code req)) (authCodes s) ⊆ authCodes s)
        by apply delete_subseteq.
      destruct (invalidOrExpired _ now);
        cbn [snd authCodes rateLimitState transports with_authCodes Js.deleteProperty];
        unfold Js.deleteProperty;
        (split; [intros k Hk; apply lookup_delete_ne; congruence |]);
        (split; [exact Hsub |]); repeat split; intros; congruence.
    + cbn [snd]. repeat split; try reflexivity. 
Qed.

(** X10. Every name that object literals inherit is a master authorization
    code: as long as the store holds no entry of that name, an exchange
    that presents it is answered with an access token, any number of
    times, and the store stays as it is. *)
Theorem inherited_code_accepted cfg (code : string) (cid sec : option string) (now : Z)
    (bits : N) (s : Server) :
  Js.inherited code = true ->
  authCodes s !! code = None ->
  fst (postToken cfg (exchange code cid sec) now bits s) = accessToken cfg bits
  /\ authCodes (snd (postToken cfg (exchange code cid sec) now bits s)) = authCodes s.
Proof.
  intros Hinh Hnone. unfold postToken, exchange, bind, gets, modify.
  cbn [TokenRequest.grant_type TokenRequest.code strictEq Js.ToString].
  change (("authorization_code" =? "client_credentials")%string) with false.
  change (("authorization_code" =? "authorization_code")%string) with true.
  cbn iota. unfold Js.getProperty. rewrite Hnone, Hinh. cbn [invalidOrExpired fst snd].
  split; [reflexivity |]. cbn [authCodes with_authCodes]. unfold Js.deleteProperty.
  apply delete_id. exact Hnone.
Qed.

(** The code "constructor" on a fresh server, twice. *)
Lemma inherited_code_accepted_witness :
  let first := postToken defaultConfig (exchange "constructor" None None) 1000 1 emptyServer in
  Js.inherited "constructor" = true
  /\ authCodes emptyServer !! "constructor" = None
  /\ fst first = accessToken defaultConfig 1
  /\ authCodes (snd first) = authCodes emptyServer.
Proof.
  intros first.
  assert (H1 : Js.inherited "constructor" = true) by reflexivity.
  assert (H2 : authCodes emptyServer !! "constructor" = None) by reflexivity.
  split; [exact H1 |]. split; [exact H2 |].
  exact (inherited_code_accepted defaultConfig "constructor" None None 1000 1 emptyServer H1 H2).
Defined.


(** ** Sessions *)


Lemma handleRequest_transports (t : Transport) (r : TransportReply) (s : Server) :
  transports (snd (handleRequest t r s)) = transports s.
Proof. unfold handleRequest, caught, bind, modify, ret. destruct r as [|[|]]; reflexivity. Qed.

Lemma onclose_transports (t : Transport) (s : Server) :
  transports (snd (onclose t s))
  = if Js.truthy (sessionId t) && negb (Js.missing (transports s) (Js.ToString (sessionId t)))
    then delete (Js.ToString (sessionId t)) (transports s)
    else transports s.
Proof.
  unfold onclose, bind, gets, modify, ret.
  destruct (Js.truthy (sessionId t) && _); reflexivity.
Qed.



Lemma registry_ok_subset (s s' : Server) :
  (forall k t, transports s' !! k = Some t -> transports s !! k = Some t) ->
  registry_ok s -> registry_ok s'.
Proof. intros Hsub Hok k t E. apply Hok, Hsub, E. Qed.

Lemma registry_ok_same (s s' : Server) :
  transports s' = transports s -> registry_ok s -> registry_ok s'.
Proof. intros E. apply registry_ok_subset. rewrite E. auto. Qed.

Lemma forEach_closeSession_registry_ok close (keys : list string) (s : Server) :
  registry_ok s -> registry_ok (snd (forEach keys (closeSession close) s)).
Proof.
  revert s. induction keys as [|key keys IH]; intros s Hok; [exact Hok |].
  cbn [forEach]. unfold bind at 1.
  destruct (closeSession close key s) as [[] s1] eqn:Hturn.
  apply IH. replace s1 with (snd (closeSession close key s)) by (rewrite Hturn; reflexivity).
  apply closeSession_registry_ok, Hok.
Qed.

Lemma postToken_transports cfg (req : TokenRequest.t) (now : Z) (bits : N) (s : Server) :
  transports (snd (postToken cfg req now bits s)) = transports s.
Proof.
  unfold postToken, bind, gets, modify, ret.
  destruct (strictEq (TokenRequest.grant_type req) "client_credentials").
  - destruct (Js.truthy (TokenRequest.client_id req) && _); reflexivity.
  - destruct (strictEq (TokenRequest.grant_type req) "authorization_code"); [| reflexivity].
    destruct (invalidOrExpired _ now); reflexivity.
Qed.

Lemma postAuthorize_transports cfg (req : AuthorizeRequest.t) (now : Z) (bits : N)
    (s : Server) :
  transports (snd (postAuthorize cfg req now bits s)) = transports s.
Proof.
  rewrite postAuthorize_run.
  destruct (afterCheck_frame cfg s (clientIp req)) as (_ & _ & Ht & _).
  destruct (activeLockout s (clientIp req) now); [reflexivity |].
  destruct (accepted cfg req); cbn [snd].
  - cbn [transports console_log with_authCodes with_rateLimitState]. exact Ht.
  - rewrite (proj2 (proj2 (recordFailedAttempt_frame cfg _ now _))). exact Ht.
Qed.

(** X14. The session registry keeps its shape: every registered transport
    is registered under the session id it carries, and no key is empty.
    Every handler of the server preserves this: the three [/mcp] handlers,
    the [onclose] callback, the shutdown loop, and the OAuth endpoints
    (which never touch the registry). *)
Theorem session_registry_invariant cfg (header : option string) (isInit : bool)
    (existing : TransportReply) (init : InitReply) (t : Transport)
    (close : Transport -> CloseReply)
    (authorize : AuthorizeRequest.t) (token : TokenRequest.t)
    (registration : RegistrationRequest.t) (now : Z) (bits : N) (s : Server) :
  registry_ok s ->
  registry_ok (snd (mcpPostHandler header isInit existing init bits s))
  /\ registry_ok (snd (mcpGetHandler header existing s))
  /\ registry_ok (snd (onclose t s))
  /\ registry_ok (snd (shutdown close s))
  /\ registry_ok (snd (getAuthorize cfg authorize now bits s))
  /\ registry_ok (snd (postAuthorize cfg authorize now bits s))
  /\ registry_ok (snd (postToken cfg token now bits s))
  /\ registry_ok (snd (handleClientRegistration registration now bits s)).
Proof.
  intros Hok.
  split; [| split; [| split; [| split; [| split; [| split; [| split]]]]]].
  - apply mcpPostHandler_registry_ok, Hok.
  - apply (registry_ok_same s); [| exact Hok].
    unfold mcpGetHandler, bind, gets, ret.
    destruct (if Js.truthy header then _ else _); [destruct existing | |]; reflexivity.
  - apply (registry_ok_subset s); [| exact Hok]. intros k t'. rewrite onclose_transports.
    destruct (_ && _); [| auto]. rewrite lookup_delete. case_decide; [discriminate | auto].
  - unfold shutdown, bind, modify, gets.
    apply forEach_closeSession_registry_ok. exact Hok.
  - apply (registry_ok_same s); [| exact Hok]. unfold getAuthorize, bind, modify, ret.
    destruct (negb _); reflexivity.
  - apply (registry_ok_same s); [apply postAuthorize_transports | exact Hok].
  - apply (registry_ok_same s); [apply postToken_transports | exact Hok].
  - apply (registry_ok_same s); [| exact Hok].
    unfold handleClientRegistration, bind, modify, ret.
    destruct (RegistrationRequest.redirect_uris registration) as [[|u us]|]; reflexivity.
Qed.

(** The registry of a fresh server, after an initialize request. *)
Lemma session_registry_invariant_witness :
  let init := {| connect_throws := false; confirms := true; reply := Handles |} in
  registry_ok emptyServer
  /\ registry_ok (snd (mcpPostHandler None true Handles init 7 emptyServer)).
Proof.
  intros init. split; [apply registry_ok_empty |].
  exact (proj1 (session_registry_invariant defaultConfig None true Handles init
                  {| sessionId := None |} (fun _ => mkCloseReply true false)
                  sampleAuthorize (exchange "x" None None)
                  (RegistrationRequest.mk None None) 0 7 emptyServer registry_ok_empty)).
Defined.

(** ** The life of an authorization code *)

Lemma postAuthorize_authCodes cfg (req : AuthorizeRequest.t) (now : Z) (bits : N)
    (s : Server) :
  authCodes (snd (postAuthorize cfg req now bits s)) = authCodes s
  \/ authCodes (snd (postAuthorize cfg req now bits s))
     = <[randomUUID bits := codeFor req now]> (authCodes s).
Proof.
  rewrite postAuthorize_run.
  destruct (afterCheck_frame cfg s (clientIp req)) as (Hcodes & _).
  destruct (activeLockout s (clientIp req) now); [| destruct (accepted cfg req)];
    cbn [snd].
  - left. reflexivity.
  - right. cbn. rewrite Hcodes. reflexivity.
  - left. rewrite (proj1 (recordFailedAttempt_frame cfg _ now _)). exact Hcodes.
Qed.

Lemma getAuthorize_authCodes cfg (req : AuthorizeRequest.t) (now : Z) (bits : N)
    (s : Server) :
  authCodes (snd (getAuthorize cfg req now bits s)) = authCodes s
  \/ exists c, AuthCode.expires c = now + 60000
               /\ authCodes (snd (getAuthorize cfg req now bits s))
                  = <[randomUUID bits := c]> (authCodes s).
Proof.
  unfold getAuthorize, bind, modify, ret.
  destruct (Js.truthy (authPassword cfg)); cbn [negb snd].
  - left. reflexivity.
  - right. eexists. split; [| reflexivity]. reflexivity.
Qed.

Lemma postToken_authCodes cfg (req : TokenRequest.t) (now : Z) (bits : N) (s : Server) :
  authCodes (snd (postToken cfg req now bits s)) ⊆ authCodes s.
Proof.
  unfold postToken, bind, gets, modify.
  destruct (strictEq (TokenRequest.grant_type req) "client_credentials").
  - destruct (Js.truthy (TokenRequest.client_id req) && _); reflexivity.
  - destruct (strictEq (TokenRequest.grant_type req) "authorization_code");
      [| reflexivity].
    destruct (invalidOrExpired _ now); cbn [snd authCodes with_authCodes];
      apply delete_subseteq.
Qed.

Lemma codes_ok_insert (now later : Z) (code : string) (c : AuthCode.t)
    (codes : gmap string AuthCode.t) (s : Server) :
  codes_ok now s -> now <= later -> AuthCode.expires c = later + 60000 ->
  codes = <[code := c]> (authCodes s) ->
  forall k c', codes !! k = Some c' -> AuthCode.expires c' <= later + 60000.
Proof.
  intros Hok Hle Hc -> k c' Hk.
  destruct (decide (k = code)) as [-> | Hne].
  - rewrite lookup_insert_eq in Hk. injection Hk as <-. lia.
  - rewrite lookup_insert_ne in Hk by congruence. specialize (Hok k c' Hk). lia.
Qed.



(** X29. An authorization code is not bound to the client it was issued
    to: what the token endpoint answers to an exchange, and the state it
    leaves, depend on the code presented and on its expiry alone. The
    [client_id] and [client_secret] of the request, and the client id,
    redirect URI and PKCE challenge recorded with the code, are compared
    with nothing. *)
Theorem code_not_bound_to_client cfg (code : string) (c c' : AuthCode.t)
    (cid sec cid' sec' : option string) (now : Z) (bits : N) (s : Server)
    (Hcode : authCodes s !! code = Some c)
    (Hexpires : AuthCode.expires c' = AuthCode.expires c) :
  postToken cfg (exchange code cid' sec') now bits
            (with_authCodes (<[code := c']> (authCodes s)) s)
  = postToken cfg (exchange code cid sec) now bits s.
Proof.
  assert (Hcode' : authCodes (with_authCodes (<[code := c']> (authCodes s)) s) !! code
                   = Some c') by apply lookup_insert_eq.
  assert (Hstate : with_authCodes
                     (delete code (authCodes (with_authCodes (<[code := c']> (authCodes s)) s)))
                     (with_authCodes (<[code := c']> (authCodes s)) s)
                   = with_authCodes (delete code (authCodes s)) s).
  { unfold with_authCodes. cbn [authCodes rateLimitState transports oauthClients console].
    rewrite delete_insert_eq. reflexivity. }
  destruct (Z.lt_ge_cases (AuthCode.expires c) now) as [Hlt | Hge].
  - rewrite (postToken_expired cfg code c' cid' sec' now bits _ Hcode') by lia.
    rewrite (postToken_expired cfg code c cid sec now bits s Hcode) by lia.
    rewrite Hstate. reflexivity.
  - rewrite (postToken_accepts cfg code c' cid' sec' now bits _ Hcode') by lia.
    rewrite (postToken_accepts cfg code c cid sec now bits s Hcode) by lia.
    rewrite Hstate. reflexivity.
Qed.

Lemma code_not_bound_to_client_witness :
  let s := snd (postAuthorize secretConfig (withPassword "secret") 1000 1 emptyServer) in
  let other := {| AuthCode.client_id := Some "someone else";
                  AuthCode.redirect_uri := Some "https://elsewhere";
                  AuthCode.code_challenge := None;
                  AuthCode.code_challenge_method := None;
                  AuthCode.expires := 61000 |} in
  postToken secretConfig (exchange (randomUUID 1) (Some "c2") (Some "x")) 2000 2
            (with_authCodes (<[randomUUID 1 := other]> (authCodes s)) s)
  = postToken secretConfig (exchange (randomUUID 1) (Some "c1") None) 2000 2 s.
Proof.
  intros s other.
  apply (code_not_bound_to_client secretConfig (randomUUID 1)
           (codeFor (withPassword "secret") 1000) other
           (Some "c1") None (Some "c2") (Some "x") 2000 2 s).
  - apply postAuthorize_stores. vm_compute. reflexivity.
  - reflexivity.
Defined.

(** * Further properties: the text helpers *)

Lemma append_cons (a : ascii) (x y : string) : String a x +:+ y = String a (x +:+ y).
Proof. reflexivity. Qed.

Lemma append_nil_l (y : string) : EmptyString +:+ y = y.
Proof. reflexivity. Qed.

Lemma append_nil_r (x : string) : x +:+ EmptyString = x.
Proof. induction x as [| a x IH]; [reflexivity |]. rewrite append_cons, IH. reflexivity. Qed.

Lemma append_assoc (x y z : string) : (x +:+ y) +:+ z = x +:+ (y +:+ z).
Proof.
  induction x as [| a x IH]; [reflexivity |].
  rewrite !append_cons, IH. reflexivity.
Qed.

Lemma occurs_append (c : ascii) (x y : string) :
  occurs c (x +:+ y) = occurs c x || occurs c y.
Proof.
  induction x as [| a x IH]; [reflexivity |].
  rewrite append_cons. cbn [occurs]. rewrite IH, orb_assoc. reflexivity.
Qed.

Lemma occurs_replaceAll_other (c d : ascii) (replacement s : string) :
  occurs c replacement = false -> occurs c s = false ->
  occurs c (replaceAll d replacement s) = false.
Proof.
  intros Hr. induction s as [| a s IH]; [reflexivity |].
  cbn [occurs replaceAll]. intros H. apply orb_false_iff in H as [Ha Hs].
  destruct (Ascii.eqb a d).
  - rewrite occurs_append, Hr. cbn. auto.
  - cbn [occurs]. rewrite Ha. cbn. auto.
Qed.

Lemma occurs_replaceAll_same (c : ascii) (replacement s : string) :
  occurs c replacement = false -> occurs c (replaceAll c replacement s) = false.
Proof.
  intros Hr. induction s as [| a s IH]; [reflexivity |].
  cbn [replaceAll]. destruct (Ascii.eqb a c) eqn:E.
  - rewrite occurs_append, Hr, IH. reflexivity.
  - cbn [occurs]. rewrite E, IH. reflexivity.
Qed.

Lemma replaceAll_absent (c : ascii) (replacement s : string) :
  occurs c s = false -> replaceAll c replacement s = s.
Proof.
  induction s as [| a s IH]; [reflexivity |].
  cbn [occurs replaceAll]. intros H. apply orb_false_iff in H as [Ha Hs].
  rewrite Ha, IH by assumption. reflexivity.
Qed.

Lemma barsAfter_escape (previous : ascii) (s : string) :
  barsAfter previous (replaceAll bar "\|" s) = true.
Proof.
  revert previous. induction s as [| a s IH]; intros previous; [reflexivity |].
  cbn [replaceAll]. destruct (Ascii.eqb a bar) eqn:E.
  - change ("\|" +:+ replaceAll bar "\|" s)
      with (String backslash (String bar (replaceAll bar "\|" s))).
    cbn [barsAfter]. rewrite IH. reflexivity.
  - cbn [barsAfter]. rewrite E, IH. reflexivity.
Qed.

Lemma barsAfter_newlines (previous : ascii) (s : string) :
  barsAfter previous s = true ->
  barsAfter (if Ascii.eqb previous newline then " "%char else previous)
            (replaceAll newline " " s) = true.
Proof.
  revert previous. induction s as [| a s IH]; intros previous; [reflexivity |].
  cbn [barsAfter replaceAll]. intros H. apply andb_true_iff in H as [Ha Hs].
  specialize (IH a Hs).
  destruct (Ascii.eqb a newline) eqn:E.
  - apply Ascii.eqb_eq in E. subst a.
    change (" " +:+ replaceAll newline " " s)
      with (String " "%char (replaceAll newline " " s)).
    cbn [barsAfter]. rewrite IH. reflexivity.
  - cbn [barsAfter]. rewrite IH, andb_true_r.
    destruct (Ascii.eqb a bar); [| reflexivity].
    apply Ascii.eqb_eq in Ha. subst previous. reflexivity.
Qed.

Lemma occurs_join (c : ascii) (separator : string) (items : list string) :
  occurs c separator = false ->
  Forall (fun item => occurs c item = false) items ->
  occurs c (join separator items) = false.
Proof.
  intros Hsep H. induction H as [| item rest Hitem Hrest IH]; [reflexivity |].
  destruct rest as [| item' rest]; [exact Hitem |].
  change (join separator (item :: item' :: rest))
    with (item +:+ separator +:+ join separator (item' :: rest)).
  rewrite !occurs_append, Hitem, Hsep, IH. reflexivity.
Qed.

(** X15. What [escapeCell] gives holds no line feed, and every bar in it
    comes right after a backslash, whatever the value; so a row of the
    table the query tool prints is one line. [null] and [undefined] are
    printed as NULL, and a text with neither character is printed as it
    is. *)
Theorem escapeCell_one_line :
  (forall val : CellValue,
      occurs newline (escapeCell val) = false
      /\ barsEscaped (escapeCell val) = true)
  /\ (forall cells : list CellValue,
         occurs newline ("| " +:+ join " | " (map escapeCell cells) +:+ " |") = false)
  /\ escapeCell CellNull = "NULL" /\ escapeCell CellUndefined = "NULL"
  /\ (forall s : string,
         occurs bar s = false -> occurs newline s = false ->
         escapeCell (CellOther s) = s /\ escapeCell (CellObject s) = s).
Proof.
  assert (Hval : forall val : CellValue,
             occurs newline (escapeCell val) = false
             /\ barsEscaped (escapeCell val) = true).
  { intros [| | s | s]; cbn [escapeCell]; try (split; reflexivity).
    - split; [apply occurs_replaceAll_same; reflexivity |].
      apply (barsAfter_newlines " "%char), barsAfter_escape.
    - split; [apply occurs_replaceAll_same; reflexivity |].
      apply (barsAfter_newlines " "%char), barsAfter_escape. }
  split; [exact Hval |]. split; [| split; [reflexivity | split; [reflexivity |]]].
  - intros cells. rewrite !occurs_append.
    rewrite (occurs_join newline " | "); [reflexivity | reflexivity |].
    apply List.Forall_forall. intros item Hin. apply in_map_iff in Hin as [val [<- _]].
    apply Hval.
  - intros s Hbar Hnl. cbn [escapeCell].
    rewrite (replaceAll_absent bar) by assumption.
    rewrite (replaceAll_absent newline) by assumption. split; reflexivity.
Qed.

Lemma readQuotedBody_quoted (name after : string) :
  (forall rest, after <> String dquote rest) ->
  readQuotedBody (replaceAll dquote (String dquote (String dquote EmptyString)) name
                  +:+ String dquote after)
  = Some (name, after).
Proof.
  intros Hafter. induction name as [| a name IH].
  - cbn [replaceAll]. rewrite append_nil_l. cbn [readQuotedBody].
    rewrite Ascii.eqb_refl. destruct after as [| b after]; [reflexivity |].
    destruct (Ascii.eqb b dquote) eqn:E; [| reflexivity].
    apply Ascii.eqb_eq in E. subst b. destruct (Hafter after). reflexivity.
  - cbn [replaceAll]. destruct (Ascii.eqb a dquote) eqn:E.
    + apply Ascii.eqb_eq in E. subst a.
      rewrite append_assoc, !append_cons, append_nil_l. cbn [readQuotedBody].
      rewrite !Ascii.eqb_refl, IH. reflexivity.
    + rewrite append_cons. cbn [readQuotedBody]. rewrite E, IH. reflexivity.
Qed.

(** X16. A name quoted by [quoteIdentifier] and put into SQL text is read
    back as exactly that name, whatever quotes it holds, and the text after
    it is left as it was (given that it does not begin with a quote, which
    would double the closing one); so two names are never quoted alike. *)
Theorem quoteIdentifier_round_trip (name after : string)
    (Hafter : forall rest, after <> String dquote rest) :
  readQuotedIdentifier (quoteIdentifier name +:+ after) = Some (name, after)
  /\ (forall other, quoteIdentifier other = quoteIdentifier name -> other = name).
Proof.
  assert (Hread : forall n, readQuotedIdentifier (quoteIdentifier n +:+ after)
                            = Some (n, after)).
  { intros n. unfold quoteIdentifier. rewrite append_cons, append_assoc, append_cons, append_nil_l.
    cbn [readQuotedIdentifier]. rewrite Ascii.eqb_refl.
    apply readQuotedBody_quoted, Hafter. }
  split; [apply Hread |].
  intros other Heq.
  pose proof (Hread other) as H1. rewrite Heq, Hread in H1. congruence.
Qed.

Lemma quoteIdentifier_round_trip_witness :
  readQuotedIdentifier
    (quoteIdentifier (String "a" (String dquote "); DROP TABLE t; --")) +:+ ") AS n")
  = Some (String "a" (String dquote "); DROP TABLE t; --"), ") AS n").
Proof.
  apply (quoteIdentifier_round_trip
           (String "a" (String dquote "); DROP TABLE t; --")) ") AS n").
  intros rest H. discriminate H.
Defined.

Lemma dropLast_append (c : ascii) (s : string) :
  dropLast c (s +:+ String c EmptyString) = s.
Proof.
  induction s as [| a s IH].
  - rewrite append_nil_l. cbn [dropLast]. rewrite Ascii.eqb_refl. reflexivity.
  - rewrite append_cons. cbn [dropLast]. rewrite IH.
    destruct (s +:+ String c EmptyString) eqn:E; [| reflexivity].
    destruct s; discriminate E.
Qed.

Lemma stripBraces_renderArray (elements : list ArrayElement) :
  stripBraces (renderArray elements) = join "," (map renderElement elements).
Proof.
  unfold renderArray.
  change ("{" +:+ join "," (map renderElement elements) +:+ "}")
    with (String "{"%char (join "," (map renderElement elements) +:+ String "}"%char EmptyString)).
  cbn [stripBraces]. rewrite Ascii.eqb_refl. apply dropLast_append.
Qed.

Lemma splitElements_text (inQuotes : bool) (x rest current : string) :
  occurs dquote x = false ->
  (inQuotes = false -> occurs ","%char x = false) ->
  splitElements (x +:+ rest) current inQuotes
  = splitElements rest (current +:+ x) inQuotes.
Proof.
  revert current. induction x as [| a x IH]; intros current Hq Hc.
  - rewrite append_nil_l, append_nil_r. reflexivity.
  - cbn [occurs] in Hq. apply orb_false_iff in Hq as [Ha Hx].
    rewrite append_cons. cbn [splitElements]. rewrite Ha.
    assert (Hcomma : Ascii.eqb a ","%char && negb inQuotes = false).
    { destruct inQuotes; [apply andb_false_r |].
      specialize (Hc eq_refl). cbn [occurs] in Hc.
      apply orb_false_iff in Hc as [-> _]. reflexivity. }
    rewrite Hcomma, IH; [| assumption |].
    + rewrite append_assoc. reflexivity.
    + intros Hin. specialize (Hc Hin). cbn [occurs] in Hc.
      apply orb_false_iff in Hc as [_ Hc]. exact Hc.
Qed.

Lemma splitElements_element (e : ArrayElement) (rest current : string) :
  simpleElement e = true ->
  splitElements (renderElement e +:+ rest) current false
  = splitElements rest (current +:+ element e) false.
Proof.
  unfold simpleElement, renderElement. intros H.
  apply andb_true_iff in H as [Hq H]. apply negb_true_iff in Hq.
  destruct (quoted e).
  - rewrite append_cons. cbn [splitElements]. rewrite Ascii.eqb_refl. cbn [negb].
    rewrite append_assoc, (splitElements_text true) by (assumption || discriminate).
    rewrite append_cons. cbn [splitElements]. rewrite Ascii.eqb_refl. reflexivity.
  - cbn [orb] in H. apply andb_true_iff in H as [Hc _]. apply negb_true_iff in Hc.
    apply splitElements_text; auto.
Qed.

Lemma splitElements_join (elements : list ArrayElement) :
  Forall (fun e => simpleElement e = true) elements -> elements <> [] ->
  splitElements (join "," (map renderElement elements)) EmptyString false
  = map element elements.
Proof.
  intros H. induction H as [| e rest He Hrest IH]; [congruence |]. intros _.
  destruct rest as [| e' rest].
  - cbn [map join]. rewrite <- (append_nil_r (renderElement e)).
    rewrite splitElements_element by assumption. reflexivity.
  - change (join "," (map renderElement (e :: e' :: rest)))
      with (renderElement e +:+ "," +:+ join "," (map renderElement (e' :: rest))).
    rewrite splitElements_element by assumption.
    change ("," +:+ join "," (map renderElement (e' :: rest)))
      with (String ","%char (join "," (map renderElement (e' :: rest)))).
    cbn [splitElements]. change (Ascii.eqb ","%char dquote) with false.
    cbn match. rewrite Ascii.eqb_refl. cbn [negb andb].
    rewrite IH by discriminate. reflexivity.
Qed.

Lemma join_renderElement_nonempty (elements : list ArrayElement) :
  Forall (fun e => simpleElement e = true) elements -> elements <> [] ->
  (join "," (map renderElement elements) =? "")%string = false.
Proof.
  intros H Hne. destruct H as [| e rest He Hrest]; [congruence |].
  assert (Hfirst : exists a x, renderElement e = String a x).
  { unfold simpleElement in He. unfold renderElement.
    destruct (quoted e); [eauto |].
    apply andb_true_iff in He as [_ He]. cbn [orb] in He.
    apply andb_true_iff in He as [_ He]. apply negb_true_iff in He.
    destruct (element e); [discriminate He | eauto]. }
  destruct Hfirst as [a [x Hx]].
  destruct rest as [| e' rest].
  - cbn [map join]. rewrite Hx. reflexivity.
  - change (join "," (map renderElement (e :: e' :: rest)))
      with (renderElement e +:+ "," +:+ join "," (map renderElement (e' :: rest))).
    rewrite Hx, append_cons. reflexivity.
Qed.

(** X17. [ensureArray] undoes the text form of a PostgreSQL array: for
    elements without a double quote inside, bare ones being non-empty and
    without a comma, the text [{e1,...,en}], with any of the elements
    between double quotes, is split back into exactly those elements, a
    comma between quotes staying inside its element; [{}] gives no
    element. *)
Theorem ensureArray_round_trip (elements : list ArrayElement)
    (Hsimple : Forall (fun e => simpleElement e = true) elements) :
  ensureArray (PgText (renderArray elements)) = map element elements.
Proof.
  unfold ensureArray. cbv zeta. rewrite stripBraces_renderArray.
  destruct elements as [| e rest]; [reflexivity |].
  rewrite join_renderElement_nonempty by (assumption || discriminate).
  apply splitElements_join; [assumption | discriminate].
Qed.

Lemma ensureArray_round_trip_witness :
  ensureArray (PgText (renderArray [mkArrayElement false "id";
                                    mkArrayElement true "last, first";
                                    mkArrayElement true ""]))
  = ["id"; "last, first"; ""].
Proof.
  apply (ensureArray_round_trip [mkArrayElement false "id";
                                 mkArrayElement true "last, first";
                                 mkArrayElement true ""]).
  repeat constructor.
Defined.

(** * Further properties: the metadata cache *)

Section SchemaLoaderProperties.

Context {SchemaMetadata DatabaseContext OntologyMetadata : Type}.
Variable interval : Z.

(** X18. After [forceRefreshSchema] with three loads that succeed the cache
    holds exactly what was loaded, whatever it held before, and up to
    [schemaRefreshIntervalMs] later (that instant included) each of the
    three getters answers with it, without loading and without changing
    the cache. *)
Theorem refresh_then_served (c : MetadataCache SchemaMetadata DatabaseContext OntologyMetadata) (now later : Z)
    (m : SchemaMetadata) (d : DatabaseContext) (o : OntologyMetadata)
    (Hfresh : later - now <= interval) :
  let fresh := mkMetadataCache (Some m) (Some d) (Some o) now in
  forceRefreshSchema interval now (Some m) (Some d) (Some o) c = (Some (m, d, o), fresh)
  /\ (forall load, getSchemaMetadata interval false later load fresh = (Some m, fresh))
  /\ (forall load, getDatabaseContext interval false later load fresh = (Some d, fresh))
  /\ (forall load, getOntologyMetadata interval false later load fresh = (Some o, fresh)).
Proof.
  assert (Hno : (later - now >? interval) = false) by (rewrite Z.gtb_ltb; apply Z.ltb_ge; lia).
  cbv zeta. split; [reflexivity |].
  unfold getSchemaMetadata, getDatabaseContext, getOntologyMetadata, mustLoad.
  cbn [cachedSchema cachedDatabaseContext cachedOntology lastRefreshTime orb].
  rewrite Hno. repeat split; reflexivity.
Qed.

(** X19. The age of the cached database context and ontology is measured
    from the last load of the schema, the only one that sets
    [lastRefreshTime]. Once that is longer ago than the interval, a
    context or ontology that was loaded a moment ago is loaded again by
    the next call, and the call after it; and once the schema has been
    loaded again, a context or ontology cached before that is served for
    another interval without being loaded. *)
Theorem context_age_is_schema_age (c : MetadataCache SchemaMetadata DatabaseContext OntologyMetadata) (now later : Z)
    (Hstale : now - lastRefreshTime c > interval) (Hlater : now <= later) :
  (forall d d',
      let c1 := mkMetadataCache (cachedSchema c) (Some d) (cachedOntology c)
                                (lastRefreshTime c) in
      getDatabaseContext interval false now (Some d) c = (Some d, c1)
      /\ getDatabaseContext interval false later (Some d') c1
         = (Some d', mkMetadataCache (cachedSchema c) (Some d') (cachedOntology c)
                                     (lastRefreshTime c)))
  /\ (forall o o',
         let c1 := mkMetadataCache (cachedSchema c) (cachedDatabaseContext c) (Some o)
                                   (lastRefreshTime c) in
         getOntologyMetadata interval false now (Some o) c = (Some o, c1)
         /\ getOntologyMetadata interval false later (Some o') c1
            = (Some o', mkMetadataCache (cachedSchema c) (cachedDatabaseContext c) (Some o')
                                        (lastRefreshTime c)))
  /\ (forall m,
         let c2 := mkMetadataCache (Some m) (cachedDatabaseContext c) (cachedOntology c)
                                   now in
         getSchemaMetadata interval false now (Some m) c = (Some m, c2)
         /\ (later - now <= interval ->
             (forall d load, cachedDatabaseContext c = Some d ->
                 getDatabaseContext interval false later load c2 = (Some d, c2))
             /\ (forall o load, cachedOntology c = Some o ->
                    getOntologyMetadata interval false later load c2 = (Some o, c2)))).
Proof.
  assert (H1 : (now - lastRefreshTime c >? interval) = true) by (apply Z.gtb_lt; lia).
  assert (H2 : (later - lastRefreshTime c >? interval) = true) by (apply Z.gtb_lt; lia).
  unfold getSchemaMetadata, getDatabaseContext, getOntologyMetadata, mustLoad.
  cbv zeta. cbn [cachedSchema cachedDatabaseContext cachedOntology lastRefreshTime orb].
  rewrite H1, H2, !orb_true_r. cbn [orb].
  split; [| split].
  - intros d d'. split; reflexivity.
  - intros o o'. split; reflexivity.
  - intros m. split; [reflexivity |]. intros Hfresh.
    assert (Hno : (later - now >? interval) = false) by (rewrite Z.gtb_ltb; apply Z.ltb_ge; lia).
    rewrite Hno. split.
    + intros d load ->. reflexivity.
    + intros o load ->. reflexivity.
Qed.


End SchemaLoaderProperties.

Lemma refresh_then_served_witness :
  getSchemaMetadata 300000 false 1300000 None
    (mkMetadataCache (Some "schema") (Some "context") (Some "ontology") 1000000)
  = (Some "schema",
     mkMetadataCache (Some "schema") (Some "context") (Some "ontology") 1000000).
Proof.
  apply (refresh_then_served 300000 emptyCache 1000000 1300000
                             "schema" "context" "ontology").
  lia.
Defined.

Lemma context_age_is_schema_age_witness :
  getDatabaseContext 300000 false 1000001 (Some "newer")
    (mkMetadataCache (@None string) (Some "new") (@None string) 0)
  = (Some "newer", mkMetadataCache (@None string) (Some "newer") (@None string) 0).
Proof.
  apply (context_age_is_schema_age 300000
           (@emptyCache string string string) 1000000 1000001);
    cbn; lia.
Defined.
(** * Further properties: the database client and the query tool *)

Section ClientProperties.

Context {RowObject : Type}.
Variable containsBlockedKeywords : string -> option string.
Variables queryTimeoutMs maxRows : Z.
Variable cellOf : RowObject -> string -> CellValue.

(** X21. A statement in which [containsBlockedKeywords] finds a keyword
    never reaches the database: [query] fails before it asks the pool for
    a connection, whatever the database would have done, and the query
    tool reports the keyword as an error. *)
Theorem blocked_query_is_not_sent (db : Database RowObject) (sql keyword : string)
    (Hblocked : containsBlockedKeywords sql = Some keyword)
    (Hkeyword : keyword <> "") :
  query containsBlockedKeywords queryTimeoutMs maxRows db sql
  = ([], Failed (ErrorObject (blockedMessage keyword)))
  /\ executeQueryTool containsBlockedKeywords queryTimeoutMs maxRows cellOf db sql
     = ([], {| text := "Error executing query: " +:+ blockedMessage keyword;
               isError := true |}).
Proof.
  assert (Hquery : query containsBlockedKeywords queryTimeoutMs maxRows db sql
                   = ([], Failed (ErrorObject (blockedMessage keyword)))).
  { unfold query. rewrite Hblocked. cbv zeta.
    destruct keyword as [| a keyword']; [congruence |]. reflexivity. }
  split; [exact Hquery |]. unfold executeQueryTool. rewrite Hquery. reflexivity.
Qed.


(** X23. When nothing fails, [query] returns the column names, at most
    [maxRows] rows (the first ones, in order) and, as [rowCount], the
    number of rows the database gave, not the number returned. The
    [truncated] flag is set exactly when the database gave [maxRows] rows
    or more: also when it gave exactly [maxRows] and none was cut; when
    the flag is off, the rows are all there. *)
Theorem query_result_bounds (db : Database RowObject) (sql : string)
    (result : PgResult RowObject)
    (Hmax : 0 < maxRows)
    (Hallowed : containsBlockedKeywords sql = None)
    (Hconnects : connects db = Fulfilled tt)
    (Hsets : sets_timeout db = Fulfilled tt)
    (Hbegins : begins db = Fulfilled tt)
    (Hruns : runs db = Fulfilled result)
    (Hcommits : commits db = Fulfilled tt) :
  exists r,
    snd (query containsBlockedKeywords queryTimeoutMs maxRows db sql) = Fulfilled r
    /\ columns r = fields result
    /\ rows r = firstn (Z.to_nat maxRows) (pg_rows result)
    /\ Z.of_nat (length (rows r)) = Z.min maxRows (rowCount r)
    /\ rowCount r = Z.of_nat (length (pg_rows result))
    /\ (truncated r = true <-> maxRows <= rowCount r)
    /\ (truncated r = false -> rows r = pg_rows result).
Proof.
  unfold query. rewrite Hallowed, Hconnects, Hsets, Hbegins, Hruns, Hcommits.
  cbn [Js.truthy snd]. eexists. split; [reflexivity |].
  cbn [columns rows rowCount truncated]. unfold slice0.
  assert (Hnonneg : (maxRows <? 0) = false) by (apply Z.ltb_ge; lia).
  rewrite Hnonneg.
  split; [reflexivity |]. split; [reflexivity |]. split.
  { rewrite length_firstn. lia. }
  split; [reflexivity |]. split.
  { rewrite Z.geb_le. reflexivity. }
  intros Hfew. apply firstn_all2.
  destruct (Z.geb_spec (Z.of_nat (length (pg_rows result))) maxRows) as [| Hlt];
    [discriminate Hfew | lia].
Qed.


End ClientProperties.

Lemma blocked_query_is_not_sent_witness :
  query (fun _ => Some "DELETE") 30000 1000
        (mkDatabase (RowObject := unit) (Fulfilled tt) (Fulfilled tt) (Fulfilled tt)
                    (Fulfilled (mkPgResult [] [])) (Fulfilled tt) (Fulfilled tt))
        "DELETE FROM t"
  = ([], Failed (ErrorObject (blockedMessage "DELETE"))).
Proof.
  apply (blocked_query_is_not_sent (fun _ => Some "DELETE") 30000 1000
           (fun _ _ => CellNull) _ "DELETE FROM t" "DELETE");
    [reflexivity | discriminate].
Defined.

Lemma query_result_bounds_witness :
  exists r,
    snd (query (fun _ => None) 30000 2
               (mkDatabase (Fulfilled tt) (Fulfilled tt) (Fulfilled tt)
                           (Fulfilled (mkPgResult ["n"] [1%nat; 2%nat; 3%nat]))
                           (Fulfilled tt) (Fulfilled tt))
               "SELECT n FROM t")
    = Fulfilled r
    /\ columns r = ["n"]
    /\ rows r = [1%nat; 2%nat]
    /\ Z.of_nat (length (rows r)) = Z.min 2 (rowCount r)
    /\ rowCount r = 3
    /\ (truncated r = true <-> 2 <= rowCount r)
    /\ (truncated r = false -> rows r = [1%nat; 2%nat; 3%nat]).
Proof.
  apply (query_result_bounds (fun _ => None) 30000 2
           (mkDatabase (Fulfilled tt) (Fulfilled tt) (Fulfilled tt)
                       (Fulfilled (mkPgResult ["n"] [1%nat; 2%nat; 3%nat]))
                       (Fulfilled tt) (Fulfilled tt))
           "SELECT n FROM t" (mkPgResult ["n"] [1%nat; 2%nat; 3%nat]));
    (lia || reflexivity).
Defined.


(** * Further properties: the background refresh and the configuration *)

Section BackgroundRefreshProperties.

Context {SchemaMetadata DatabaseContext OntologyMetadata : Type}.
Variables tables views : SchemaMetadata -> nat.
Variable interval : Z.

Lemma forceRefreshSchema_loaded
    (c : MetadataCache SchemaMetadata DatabaseContext OntologyMetadata) (now : Z)
    (m : SchemaMetadata) (d : DatabaseContext) (o : OntologyMetadata) :
  forceRefreshSchema interval now (Some m) (Some d) (Some o) c
  = (Some (m, d, o), mkMetadataCache (Some m) (Some d) (Some o) now).
Proof. reflexivity. Qed.

(** X25. The background refresh reports a change by comparing the table
    and view counts of the schema it has just loaded with those of the
    schema that [getSchemaMetadata()] gave it a moment before. While the
    cache is fresh that is the cached schema; but when the cache is empty
    or older than the interval, it is a schema the pulse itself has loaded
    first, and what was cached plays no part in the comparison. Either
    way a pulse whose loads succeed leaves the cache holding exactly what
    it loaded, and a pulse whose first load fails logs one error and
    leaves the cache as it was. *)
Theorem schemaRefreshPulse_comparison
    (c : MetadataCache SchemaMetadata DatabaseContext OntologyMetadata) (now later : Z)
    (m : SchemaMetadata) (d : DatabaseContext) (o : OntologyMetadata) :
  let pulse loadOld :=
    schemaRefreshPulse tables views interval now later loadOld (Some m) (Some d) (Some o) c in
  let same previous := tables m = tables previous /\ views m = views previous in
  (forall cached loadOld,
      cachedSchema c = Some cached -> now - lastRefreshTime c <= interval ->
      snd (pulse loadOld) = mkMetadataCache (Some m) (Some d) (Some o) later
      /\ (fst (pulse loadOld) = [] <-> same cached))
  /\ (forall loaded,
         cachedSchema c = None \/ now - lastRefreshTime c > interval ->
         snd (pulse (Some loaded)) = mkMetadataCache (Some m) (Some d) (Some o) later
         /\ (fst (pulse (Some loaded)) = [] <-> same loaded))
  /\ (cachedSchema c = None \/ now - lastRefreshTime c > interval ->
      pulse None = ([ConsoleError "Background schema refresh failed:"], c)).
Proof.
  assert (Hcompare : forall previous rest,
             (if negb (tables m =? tables previous)%nat
                 || negb (views m =? views previous)%nat
              then [rest] else []) = ([] : list ConsoleLine)
             <-> tables m = tables previous /\ views m = views previous).
  { intros previous rest.
    destruct (Nat.eqb_spec (tables m) (tables previous)) as [Ht | Ht];
      destruct (Nat.eqb_spec (views m) (views previous)) as [Hv | Hv]; cbn;
      split; intros H; try discriminate H; try reflexivity; try (split; assumption);
      destruct H; contradiction. }
  cbv zeta. unfold schemaRefreshPulse, getSchemaMetadata, mustLoad. cbn [orb].
  split; [| split].
  - intros cached loadOld Hcached Hfresh. rewrite Hcached.
    assert (Hno : (now - lastRefreshTime c >? interval) = false)
      by (rewrite Z.gtb_ltb; apply Z.ltb_ge; lia).
    rewrite Hno. cbn [orb].
    rewrite forceRefreshSchema_loaded. cbv zeta.
    destruct (negb (tables m =? tables cached)%nat || negb (views m =? views cached)%nat)
      eqn:E; (split; [reflexivity |]); cbn [fst]; rewrite <- (Hcompare cached (ConsoleLog ""));
      rewrite E; split; intros H; (reflexivity || discriminate H).
  - intros loaded Hstale.
    assert (Hload : match cachedSchema c with Some _ => false | None => true end
                    || (now - lastRefreshTime c >? interval) = true).
    { destruct Hstale as [-> | Hstale]; [reflexivity |].
      apply orb_true_iff. right. apply Z.gtb_lt. lia. }
    rewrite Hload.
    rewrite forceRefreshSchema_loaded. cbv zeta.
    destruct (negb (tables m =? tables loaded)%nat || negb (views m =? views loaded)%nat)
      eqn:E; (split; [reflexivity |]); cbn [fst]; rewrite <- (Hcompare loaded (ConsoleLog ""));
      rewrite E; split; intros H; (reflexivity || discriminate H).
  - intros Hstale.
    assert (Hload : match cachedSchema c with Some _ => false | None => true end
                    || (now - lastRefreshTime c >? interval) = true).
    { destruct Hstale as [-> | Hstale]; [reflexivity |].
      apply orb_true_iff. right. apply Z.gtb_lt. lia. }
    rewrite Hload. reflexivity.
Qed.

End BackgroundRefreshProperties.

Lemma split_separator_free (c : ascii) (value : string) :
  Forall (fun piece => occurs c piece = false) (split c value).
Proof.
  induction value as [| a value IH]; [repeat constructor |].
  cbn [split]. destruct (Ascii.eqb a c) eqn:E.
  - constructor; [reflexivity | exact IH].
  - destruct (split c value) as [| first others].
    + repeat constructor. cbn [occurs]. rewrite E. reflexivity.
    + inversion IH as [| ? ? Hfirst Hothers]; subst.
      constructor; [| exact Hothers]. cbn [occurs]. rewrite E, Hfirst. reflexivity.
Qed.

Lemma occurs_dropBytes (c : ascii) (n : nat) (s : string) :
  occurs c s = false -> occurs c (dropBytes n s) = false.
Proof.
  revert s. induction n as [| n IH]; intros s H; [destruct s; exact H |].
  destruct s as [| a s]; [exact H |].
  cbn [dropBytes]. apply IH. cbn [occurs] in H. apply orb_false_iff in H as [_ H]. exact H.
Qed.

Lemma occurs_trimStartFrom (c : ascii) (fuel : nat) (s : string) :
  occurs c s = false -> occurs c (trimStartFrom fuel s) = false.
Proof.
  revert s. induction fuel as [| fuel IH]; intros s H; [exact H |].
  cbn [trimStartFrom].
  destruct (find (fun w => startsWith w s) whiteSpace); [| exact H].
  apply IH, occurs_dropBytes, H.
Qed.

Lemma occurs_trimEnd (c : ascii) (s : string) :
  occurs c s = false -> occurs c (trimEnd s) = false.
Proof.
  induction s as [| a s IH]; intros H; [reflexivity |].
  cbn [trimEnd]. destruct (trimStart (String a s) =? "")%string; [reflexivity |].
  cbn [occurs] in *. apply orb_false_iff in H as [Ha Hs]. rewrite Ha, IH by exact Hs.
  reflexivity.
Qed.

Lemma occurs_trim (c : ascii) (s : string) :
  occurs c s = false -> occurs c (trim s) = false.
Proof. intros H. apply occurs_trimEnd, occurs_trimStartFrom, H. Qed.

Lemma defaultSchema_truthy (DEFAULT_SCHEMA : option string) (exposedSchemas : list string) :
  defaultSchema DEFAULT_SCHEMA exposedSchemas <> "".
Proof.
  unfold defaultSchema, Js.or_else.
  destruct DEFAULT_SCHEMA as [[| a s] |]; cbn [Js.truthy String.eqb negb Js.ToString];
    try discriminate;
    destruct exposedSchemas as [| [| b first] others]; cbn; discriminate.
Qed.

(** X26. The schema names that [parseExposedSchemas] gives are never empty
    and hold no comma, whatever the value of EXPOSED_SCHEMAS; they are
    [public] alone when the variable is unset or empty, and there may be
    none at all (a value of commas and blanks). The default schema is
    never empty: it is DEFAULT_SCHEMA when that is set and not empty,
    else the first exposed schema, else [public]. *)
Theorem parseExposedSchemas_names (value DEFAULT_SCHEMA : option string) :
  Forall (fun name => name <> "" /\ occurs ","%char name = false)
         (parseExposedSchemas value)
  /\ (Js.truthy value = false -> parseExposedSchemas value = ["public"])
  /\ parseExposedSchemas (Some " , ") = []
  /\ defaultSchema DEFAULT_SCHEMA (parseExposedSchemas value) <> ""
  /\ (Js.truthy DEFAULT_SCHEMA = true ->
      Some (defaultSchema DEFAULT_SCHEMA (parseExposedSchemas value)) = DEFAULT_SCHEMA)
  /\ (Js.truthy DEFAULT_SCHEMA = false ->
      defaultSchema DEFAULT_SCHEMA (parseExposedSchemas value)
      = hd "public" (parseExposedSchemas value)).
Proof.
  assert (Hnames : Forall (fun name => name <> "" /\ occurs ","%char name = false)
                          (parseExposedSchemas value)).
  { unfold parseExposedSchemas. destruct (Js.truthy value).
    - cbn [negb]. apply List.Forall_forall. intros name Hin.
      apply filter_In in Hin as [Hin Hne]. split.
      + intros ->. discriminate Hne.
      + apply in_map_iff in Hin as [piece [<- Hin]]. apply occurs_trim.
        pose proof (split_separator_free ","%char (Js.ToString value)) as Hall.
        rewrite List.Forall_forall in Hall. apply Hall, Hin.
    - repeat constructor. discriminate. }
  split; [exact Hnames |]. split; [| split; [| split; [| split]]].
  - unfold parseExposedSchemas. intros ->. reflexivity.
  - vm_compute. reflexivity.
  - apply defaultSchema_truthy.
  - unfold defaultSchema, Js.or_else. intros H.
    destruct DEFAULT_SCHEMA; [rewrite H; reflexivity | discriminate H].
  - unfold defaultSchema, Js.or_else. intros ->.
    destruct (parseExposedSchemas value) as [| first others]; [reflexivity |].
    inversion Hnames as [| ? ? [Hfirst _] _]; subst.
    cbn [head hd Js.truthy]. destruct first; [congruence | reflexivity].
Qed.

Lemma split_piece (c : ascii) (piece : string) :
  occurs c piece = false -> split c piece = [piece].
Proof.
  induction piece as [| a piece IH]; intros H; [reflexivity |].
  cbn [occurs] in H. apply orb_false_iff in H as [Ha Hp].
  cbn [split]. rewrite Ha, IH by exact Hp. reflexivity.
Qed.

Lemma split_append (c : ascii) (piece rest : string) :
  occurs c piece = false ->
  split c (piece +:+ String c rest) = piece :: split c rest.
Proof.
  induction piece as [| a piece IH]; intros H.
  - rewrite append_nil_l. cbn [split]. rewrite Ascii.eqb_refl. reflexivity.
  - cbn [occurs] in H. apply orb_false_iff in H as [Ha Hp].
    rewrite append_cons. cbn [split]. rewrite Ha, IH by exact Hp. reflexivity.
Qed.

Lemma split_join (c : ascii) (pieces : list string) :
  pieces <> [] ->
  Forall (fun piece => occurs c piece = false) pieces ->
  split c (join (String c EmptyString) pieces) = pieces.
Proof.
  intros Hne H. induction H as [| piece rest Hpiece Hrest IH]; [congruence |].
  destruct rest as [| piece' rest].
  - apply split_piece, Hpiece.
  - change (join (String c EmptyString) (piece :: piece' :: rest))
      with (piece +:+ String c EmptyString +:+ join (String c EmptyString) (piece' :: rest)).
    rewrite append_cons, append_nil_l, split_append, IH by (assumption || discriminate).
    reflexivity.
Qed.

Lemma trimStart_blank (s : string) : trimStart (String " "%char s) = trimStart s.
Proof. reflexivity. Qed.

Lemma trim_blank (s : string) : trim (" " +:+ s) = trim s.
Proof.
  unfold trim. change (" " +:+ s) with (String " "%char s).
  rewrite trimStart_blank. reflexivity.
Qed.

Lemma join_blank (names : list string) :
  join ", " names
  = join "," (match names with
              | [] => []
              | first :: others => first :: map (fun name => " " +:+ name) others
              end).
Proof.
  destruct names as [| first others]; [reflexivity |].
  revert first. induction others as [| second others IH]; intros first; [reflexivity |].
  change (join ", " (first :: second :: others))
    with (first +:+ ", " +:+ join ", " (second :: others)).
  rewrite IH.
  change (join "," (first :: map (fun name => " " +:+ name) (second :: others)))
    with (first +:+ "," +:+ join "," ((" " +:+ second)
                                        :: map (fun name => " " +:+ name) others)).
  destruct others as [| third others].
  - reflexivity.
  - cbn [map].
    change (join "," (second :: (" " +:+ third) :: map (fun name => " " +:+ name) others))
      with (second +:+ "," +:+ join "," ((" " +:+ third)
                                           :: map (fun name => " " +:+ name) others)).
    change (join "," ((" " +:+ second) :: (" " +:+ third)
                        :: map (fun name => " " +:+ name) others))
      with ((" " +:+ second) +:+ "," +:+ join "," ((" " +:+ third)
                                           :: map (fun name => " " +:+ name) others)).
    reflexivity.
Qed.

Lemma filter_nonempty (names : list string) :
  Forall (fun name => name <> "") names ->
  List.filter (fun s => negb (s =? "")%string) names = names.
Proof.
  intros H. induction H as [| name rest Hname Hrest IH]; [reflexivity |].
  cbn [List.filter]. destruct name; [congruence |]. cbn. rewrite IH. reflexivity.
Qed.

(** X27. A list of schema names written with commas, or with a comma and a
    blank, between them is read back by [parseExposedSchemas] as exactly
    that list, in order, for names that are not empty, hold no comma and
    have no white space at either end; and without DEFAULT_SCHEMA the
    first of them becomes the default schema. *)
Theorem parseExposedSchemas_round_trip (first : string) (others : list string)
    (Hnames : Forall (fun name => name <> "" /\ occurs ","%char name = false
                                  /\ trim name = name) (first :: others)) :
  parseExposedSchemas (Some (join "," (first :: others))) = first :: others
  /\ parseExposedSchemas (Some (join ", " (first :: others))) = first :: others
  /\ defaultSchema None (parseExposedSchemas (Some (join ", " (first :: others)))) = first.
Proof.
  assert (Hne : Forall (fun name => name <> "") (first :: others)).
  { eapply List.Forall_impl; [| exact Hnames]. cbn. tauto. }
  assert (Hfree : Forall (fun name => occurs ","%char name = false) (first :: others)).
  { eapply List.Forall_impl; [| exact Hnames]. cbn. tauto. }
  assert (Htrim : map trim (first :: others) = first :: others).
  { clear Hne Hfree. induction Hnames as [| name rest [_ [_ Hname]] Hrest IH];
      [reflexivity |]. cbn [map]. rewrite Hname, IH. reflexivity. }
  assert (Hfirst : exists a s, first = String a s).
  { inversion Hne as [| ? ? H _]; subst. destruct first; [congruence | eauto]. }
  assert (Hcomma : parseExposedSchemas (Some (join "," (first :: others)))
                   = first :: others).
  { unfold parseExposedSchemas.
    assert (Htruthy : Js.truthy (Some (join "," (first :: others))) = true).
    { destruct Hfirst as [a [s ->]]. destruct others; reflexivity. }
    rewrite Htruthy. cbn [negb Js.ToString].
    rewrite (split_join ","%char) by (assumption || discriminate).
    rewrite Htrim. apply filter_nonempty, Hne. }
  assert (Hblank : parseExposedSchemas (Some (join ", " (first :: others)))
                   = first :: others).
  { rewrite join_blank. unfold parseExposedSchemas.
    assert (Htruthy : Js.truthy (Some (join "," (first :: map (fun name => " " +:+ name)
                                                             others))) = true).
    { destruct Hfirst as [a [s ->]]. destruct others; reflexivity. }
    rewrite Htruthy. cbn [negb Js.ToString].
    rewrite (split_join ","%char).
    - cbn [map]. rewrite map_map.
      rewrite (map_ext (fun name => trim (" " +:+ name)) trim) by apply trim_blank.
      cbn [map] in Htrim. rewrite Htrim. apply filter_nonempty, Hne.
    - discriminate.
    - inversion Hfree as [| ? ? Hf Ho]; subst. constructor; [exact Hf |].
      apply List.Forall_forall. intros piece Hin.
      apply in_map_iff in Hin as [name [<- Hin]].
      rewrite List.Forall_forall in Ho.
      change (" " +:+ name) with (String " "%char name). cbn [occurs].
      rewrite (Ho name Hin). reflexivity. }
  split; [exact Hcomma |]. split; [exact Hblank |].
  rewrite Hblank. destruct Hfirst as [a [s ->]]. reflexivity.
Qed.

Lemma parseExposedSchemas_round_trip_witness :
  parseExposedSchemas (Some "public, sales, hr") = ["public"; "sales"; "hr"].
Proof.
  apply (parseExposedSchemas_round_trip "public" ["sales"; "hr"]).
  repeat constructor; (discriminate || reflexivity).
Defined.
